(** * nestjs-smart-modules: the composition engine, embedded and verified

    The development follows the three runtime files of the package:
    [utils/helpers.ts] (namespacing and [appendImports]), [modules.ts]
    (instantiation and the module synthesizers) and [smartModule.ts]
    (the orchestrator), with the structural predicates of [types.ts].

    Modelling choices, fixed once for the whole file:
    - JavaScript data is one untyped universe [value].  Plain objects are
      association lists in property order with one binding per key
      ([wf_props]); the library never mutates an object it did not just
      create, so objects are immutable values here.
    - Arrays are the mutable objects: an array value is a location into
      the array store of the [heap].  [appendImports] pushes onto an array
      that the descriptor may share, so aliasing is kept.
    - Functions are values with an identity.  A [VClass] is a function
      whose source text matches [/^class\s/]; a [VFun] is any other user
      function, whose behaviour comes from the environment [ufun]; the
      three closures that the library itself creates are constructors of
      their own, interpreted by [call].  Such a closure captures [arg] and
      reads [arg.useFactory] when it is called; [arg] being an immutable
      value here, the constructor holds that [useFactory] directly.
    - A property that the source types [string | undefined] (a label, a
      prefix) is read as an optional string: anything that is not a string
      counts as absent.
    - Strings are byte strings; numbers are integers.  Properties
      inherited from prototypes are not modelled, and property keys that
      look like array indices keep their insertion position. *)

From Stdlib Require Import List String Ascii ZArith Bool Arith Lia DecimalString.
Import ListNotations.
Open Scope string_scope.
Open Scope list_scope.

(** ** Values *)

#[warnings="-register-all"]
Inductive value : Type :=
| VUndefined
| VNull
| VBool (b : bool)
| VNum (n : Z)
| VStr (s : string)
| VObj (props : list (string * value))
| VArr (loc : nat)
| VClass (id : nat) (name : string)
         (statics : list (string * value)) (fields : list (string * value))
| VFun (id : nat)
| VConfigFactory (smartConfigBase : value) (useFactory : value)
| VExtendedConfigFactory (smartConfigBase : value) (useFactory : value)
| VImportFactory (smartImportBase : value) (useFactory : value).

Definition props := list (string * value).

(** The store of arrays; an array value [VArr l] denotes cell [l]. *)
Definition arrays := list (list value).

Inductive error : Type :=
| TypeError (msg : string)
| JsError (msg : string).

Inductive result (A : Type) : Type :=
| Ok (a : A)
| Throw (e : error).
Arguments Ok {A} a.
Arguments Throw {A} e.

Definition rbind {A B} (r : result A) (k : A -> result B) : result B :=
  match r with
  | Ok a => k a
  | Throw e => Throw e
  end.

Declare Scope res_scope.
Delimit Scope res_scope with res.
Notation "x <- r ;; k" := (rbind r (fun x => k))
  (at level 61, r at next level, right associativity) : res_scope.

(** ** Objects as ordered property lists *)

Fixpoint lookup (k : string) (o : props) : option value :=
  match o with
  | [] => None
  | (k', v) :: r => if String.eqb k k' then Some v else lookup k r
  end.

(** [o[k] = v] on an object: overwrite in place, or append a new key. *)
Fixpoint set_prop (o : props) (k : string) (v : value) : props :=
  match o with
  | [] => [(k, v)]
  | (k', v') :: r =>
      if String.eqb k k' then (k', v) :: r else (k', v') :: set_prop r k v
  end.

(** Copy the bindings of [src] onto [target], left to right: what an
    object spread and [Object.fromEntries] both do. *)
Definition assign (target src : props) : props :=
  fold_left (fun o kv => set_prop o (fst kv) (snd kv)) src target.

Definition fromEntries (l : props) : props := assign [] l.

(** The object literal [{ ...a, ...b }]. *)
Definition spread (a b : props) : props := assign (assign [] a) b.

Definition keys (o : props) : list string := map fst o.

Definition wf_props (o : props) : Prop := NoDup (keys o).

Definition or_undefined (o : option value) : value :=
  match o with
  | Some v => v
  | None => VUndefined
  end.

(** ** Primitive operations of the language *)

Definition truthy (v : value) : bool :=
  match v with
  | VUndefined | VNull => false
  | VBool b => b
  | VNum n => negb (Z.eqb n 0)
  | VStr s => negb (String.eqb s "")
  | _ => true
  end.

(** [a || b] *)
Definition or_else (a b : value) : value := if truthy a then a else b.

Definition typeof (v : value) : string :=
  match v with
  | VUndefined => "undefined"
  | VNull => "object"
  | VBool _ => "boolean"
  | VNum _ => "number"
  | VStr _ => "string"
  | VObj _ => "object"
  | VArr _ => "object"
  | VClass _ _ _ _ => "function"
  | VFun _ => "function"
  | VConfigFactory _ _ => "function"
  | VExtendedConfigFactory _ _ => "function"
  | VImportFactory _ _ => "function"
  end.

Definition index_key (n : nat) : string :=
  NilEmpty.string_of_uint (Nat.to_uint n).

(** A key is an index when it is the canonical decimal form of a number. *)
Definition key_index (k : string) : option nat :=
  match NilEmpty.uint_of_string k with
  | Some u =>
      let n := Nat.of_uint u in
      if String.eqb (index_key n) k then Some n else None
  | None => None
  end.

Definition indexed (l : list value) : props :=
  combine (map index_key (seq 0 (List.length l))) l.

Fixpoint chars (s : string) : list value :=
  match s with
  | EmptyString => []
  | String c r => VStr (String c EmptyString) :: chars r
  end.

Definition element (l : list value) (k : string) : value :=
  if String.eqb k "length" then VNum (Z.of_nat (List.length l))
  else match key_index k with
       | Some i => nth i l VUndefined
       | None => VUndefined
       end.

(** [k.substring(n)]: the string without its first [n] characters. *)
Definition drop_chars (n : nat) (k : string) : string :=
  substring n (String.length k - n) k.

(** [([k]) => k.startsWith(prefix)] *)
Definition starts_with (prefix : string) (kv : string * value) : bool :=
  String.prefix prefix (fst kv).

(** [([k, v]) => [k.substring(prefix.length), v]] *)
Definition strip (prefix : string) (kv : string * value) : string * value :=
  (drop_chars (String.length prefix) (fst kv), snd kv).

(** A property that the source types as [string | undefined]. *)
Definition as_string (v : value) : option string :=
  match v with
  | VStr s => Some s
  | _ => None
  end.

(** Truthiness of an optional string: set and not empty. *)
Definition is_set (s : option string) : bool :=
  match s with
  | Some x => negb (String.eqb x "")
  | None => false
  end.

Definition str_of (s : option string) : string :=
  match s with
  | Some x => x
  | None => ""
  end.

Definition is_defined (v : value) : bool :=
  match v with
  | VUndefined => false
  | _ => true
  end.

(** [entries.filter(([, val]) => val !== undefined)] *)
Definition defined_props (es : props) : props :=
  filter (fun kv => is_defined (snd kv)) es.

(** [new config()]: the instance fields of a class; calling [new] on
    anything that is not a constructor is a TypeError.  A schema class is
    taken to declare fields with constant initialisers and no constructor
    of its own, as the schemas of the package do: constructing it has no
    effect, cannot throw and is not recorded among the calls into user
    code. *)
Definition construct (config : value) : result props :=
  match config with
  | VClass _ _ _ fields => Ok fields
  | _ => Throw (TypeError "config is not a constructor")
  end.

(** The members that every plain object inherits from [Object.prototype].
    At such a key [o[k]] is a function (or the prototype) even when [o]
    has no property [k] of its own; [get] below reads own properties only,
    so a statement about an arbitrary key that is not an own property
    takes [inherited k = false] as a side condition. *)
Definition inherited (k : string) : bool :=
  existsb (String.eqb k)
          ["constructor"; "__defineGetter__"; "__defineSetter__"; "hasOwnProperty";
           "__lookupGetter__"; "__lookupSetter__"; "isPrototypeOf";
           "propertyIsEnumerable"; "toString"; "valueOf"; "__proto__";
           "toLocaleString"].

Section Reading.

Variable h : arrays.

Definition array_at (loc : nat) : list value := nth loc h [].

(** [o[k]], for the own properties of [o]. *)
Definition get (o : value) (k : string) : result value :=
  match o with
  | VUndefined =>
      Throw (TypeError ("Cannot read properties of undefined (reading '" ++ k ++ "')"))
  | VNull =>
      Throw (TypeError ("Cannot read properties of null (reading '" ++ k ++ "')"))
  | VObj ps => Ok (or_undefined (lookup k ps))
  | VArr loc => Ok (element (array_at loc) k)
  | VStr s => Ok (element (chars s) k)
  | VClass _ name statics _ =>
      Ok (if String.eqb k "name" then VStr name
          else or_undefined (lookup k statics))
  | _ => Ok VUndefined
  end.

(** [Object.entries(o)] *)
Definition entries (o : value) : result props :=
  match o with
  | VUndefined | VNull =>
      Throw (TypeError "Cannot convert undefined or null to object")
  | VObj ps => Ok ps
  | VArr loc => Ok (indexed (array_at loc))
  | VStr s => Ok (indexed (chars s))
  | VClass _ _ statics _ => Ok statics
  | _ => Ok []
  end.

(** The own enumerable properties copied by an object spread [{...o}];
    spreading [undefined] or [null] copies nothing. *)
Definition spread_props (o : value) : props :=
  match entries o with
  | Ok ps => ps
  | Throw _ => []
  end.

Definition str_prop (o : value) (k : string) : result (option string) :=
  (v <- get o k ;; Ok (as_string v))%res.

(** *** utils/helpers.ts *)

Definition removePrefix (obj : value) (prefix : option string) : result value :=
  if is_set prefix then
    (es <- entries obj ;;
     Ok (VObj (fromEntries (map (strip (str_of prefix)) es))))%res
  else Ok obj.

Definition filterByPrefix (obj : value) (prefix : option string) : result value :=
  if is_set prefix then
    (es <- entries obj ;;
     Ok (VObj (fromEntries (filter (starts_with (str_of prefix)) es))))%res
  else Ok obj.

Definition pickLabel (obj : value) (label : option string) : result value :=
  if is_set label then get obj (str_of label) else Ok obj.

Definition pickLabeledAndPrefixed (obj : value) (label prefix : option string)
  : result value :=
  (labeled <- pickLabel obj label ;;
   filtered <- filterByPrefix labeled prefix ;;
   removePrefix filtered prefix)%res.

(** *** modules.ts: instantiation *)

Definition applyPropsToSmartConfig (config overrideObj : value) : result value :=
  (inst <- construct config ;;
   es <- entries overrideObj ;;
   Ok (VObj (spread inst (fromEntries (defined_props es)))))%res.

Definition instantiateSmartConfig (config arg : value) : result value :=
  (label <- str_prop config "label" ;;
   prefix <- str_prop config "prefix" ;;
   picked <- pickLabeledAndPrefixed arg label prefix ;;
   applyPropsToSmartConfig config picked)%res.

Definition instantiateExtendedSmartConfig (config arg : value) : result value :=
  (smartConfig <- get config "smartConfig" ;;
   inlineLabel <- get config "label" ;;
   label <- (if String.eqb (typeof inlineLabel) "string"
             then Ok (as_string inlineLabel)
             else str_prop smartConfig "label") ;;
   inlinePrefix <- get config "prefix" ;;
   prefix <- (if String.eqb (typeof inlinePrefix) "string"
              then Ok (as_string inlinePrefix)
              else str_prop smartConfig "prefix") ;;
   picked <- pickLabeledAndPrefixed arg label prefix ;;
   applyPropsToSmartConfig smartConfig picked)%res.

End Reading.

(** ** JSON.stringify, for the error messages *)

Definition dquote : string := String (ascii_of_nat 34) EmptyString.
Definition backslash : string := String (ascii_of_nat 92) EmptyString.

Definition hex_digit (n : nat) : ascii :=
  nth n (list_ascii_of_string "0123456789abcdef") "0"%char.

Definition escape_char (c : ascii) : string :=
  let n := nat_of_ascii c in
  if Nat.eqb n 34 then backslash ++ dquote
  else if Nat.eqb n 92 then backslash ++ backslash
  else if Nat.eqb n 8 then backslash ++ "b"
  else if Nat.eqb n 9 then backslash ++ "t"
  else if Nat.eqb n 10 then backslash ++ "n"
  else if Nat.eqb n 12 then backslash ++ "f"
  else if Nat.eqb n 13 then backslash ++ "r"
  else if Nat.ltb n 32 then
    backslash ++ "u00" ++ String (hex_digit (n / 16)) (String (hex_digit (n mod 16)) EmptyString)
  else String c EmptyString.

Fixpoint escape (s : string) : string :=
  match s with
  | EmptyString => EmptyString
  | String c r => escape_char c ++ escape r
  end.

Definition quote (s : string) : string := dquote ++ escape s ++ dquote.

Definition show_Z (n : Z) : string := NilZero.string_of_int (Z.to_int n).

Fixpoint join (sep : string) (l : list string) : string :=
  match l with
  | [] => ""
  | [x] => x
  | x :: r => x ++ sep ++ join sep r
  end.

(** [JSON.stringify v]; [None] stands for the result [undefined].  The
    recursion follows objects structurally and spends one unit of [fuel]
    for each array entered, so that a store of [n] arrays needs [S n]:
    running out means an array contains itself, where JavaScript throws. *)
Fixpoint stringify (h : arrays) (fuel : nat) : value -> result (option string) :=
  fix go (v : value) : result (option string) :=
    match v with
    | VNull => Ok (Some "null")
    | VBool true => Ok (Some "true")
    | VBool false => Ok (Some "false")
    | VNum n => Ok (Some (show_Z n))
    | VStr s => Ok (Some (quote s))
    | VObj ps =>
        (members <-
           (fix go_props (ps : list (string * value)) : result (list string) :=
              match ps with
              | [] => Ok []
              | (k, x) :: r =>
                  (sx <- go x ;;
                   sr <- go_props r ;;
                   Ok (match sx with
                       | Some t => (quote k ++ ":" ++ t)%string :: sr
                       | None => sr
                       end))
              end) ps ;;
         Ok (Some ("{" ++ join "," members ++ "}")%string))%res
    | VArr loc =>
        match fuel with
        | O => Throw (TypeError "Converting circular structure to JSON")
        | S fuel' =>
            (items <-
               (fix go_items (l : list value) : result (list string) :=
                  match l with
                  | [] => Ok []
                  | x :: r =>
                      (sx <- stringify h fuel' x ;;
                       sr <- go_items r ;;
                       Ok (match sx with
                           | Some t => t
                           | None => "null"
                           end :: sr))
                  end) (array_at h loc) ;;
             Ok (Some ("[" ++ join "," items ++ "]")%string))%res
        end
    | _ => Ok None
    end.

Definition JSON_stringify (h : arrays) (v : value) : result (option string) :=
  stringify h (S (List.length h)) v.

(** How a template literal renders the result of [JSON.stringify]. *)
Definition interpolate (s : option string) : string :=
  match s with
  | Some t => t
  | None => "undefined"
  end.

(** ** types.ts: the structural predicates *)

Definition isFunction (c : value) : bool := String.eqb (typeof c) "function".

Definition isClass (c : value) : bool :=
  match c with
  | VClass _ _ _ _ => true
  | _ => false
  end.

Definition isSmartConfig (c : value) : bool := isClass c.

Definition isSmartImport (c : value) : bool := isFunction c && negb (isClass c).

Definition isSmartModule (x : value) : bool := negb (isFunction x).

Definition isSmartModuleFactory (x : value) : bool := isFunction x.

Definition isAsyncParams (h : arrays) (o : value) : result bool :=
  (f <- get h o "useFactory" ;; Ok (String.eqb (typeof f) "function"))%res.

Definition isExtendedSmartConfig (h : arrays) (c : value) : result bool :=
  (sc <- get h c "smartConfig" ;; Ok (truthy sc && isSmartConfig sc))%res.

Definition isExtendedSmartImport (h : arrays) (c : value) : result bool :=
  (si <- get h c "smartImport" ;; Ok (truthy si && isSmartImport si))%res.

(** ** The store, and computations over it *)

Record heap : Type := mkHeap {
  next_id : nat;      (* identities handed out to classes so far *)
  cells : arrays      (* the arrays *)
}.

(** The calls that the library makes into user code are recorded, with
    the place they are made from. *)
Inductive call_site : Type :=
| FactorySite        (* the module factory handed to [smartModule] *)
| NestedModuleSite   (* a [smartImports] entry *)
| UseFactorySite.    (* the [useFactory] of an asynchronous root input *)

Record event : Type := mkEvent {
  ev_site : call_site;
  ev_callee : value;
  ev_args : list value
}.

Record state : Type := mkState {
  st_heap : heap;
  st_trace : list event
}.

Definition M (A : Type) : Type := state -> result (A * state).

Definition ret {A} (a : A) : M A := fun s => Ok (a, s).

Definition bind {A B} (m : M A) (k : A -> M B) : M B :=
  fun s =>
    match m s with
    | Ok (a, s') => k a s'
    | Throw e => Throw e
    end.

Definition throw {A} (e : error) : M A := fun _ => Throw e.

Declare Scope m_scope.
Delimit Scope m_scope with M.
Notation "x <- m ;; k" := (bind m (fun x => k))
  (at level 61, m at next level, right associativity) : m_scope.
Notation "m ;;; k" := (bind m (fun _ => k))
  (at level 61, right associativity) : m_scope.

(** A pure helper, run against the arrays as they are now. *)
Definition reading {A} (f : arrays -> result A) : M A :=
  fun s =>
    match f (cells (st_heap s)) with
    | Ok a => Ok (a, s)
    | Throw e => Throw e
    end.

Fixpoint mapM {A B} (f : A -> M B) (l : list A) : M (list B) :=
  match l with
  | [] => ret []
  | x :: r => (y <- f x ;; ys <- mapM f r ;; ret (y :: ys))%M
  end.

Definition with_heap (s : state) (h : heap) : state :=
  mkState h (st_trace s).

(** An array literal, or the result of [.map]: a new cell. *)
Definition new_array (l : list value) : M value :=
  fun s =>
    let h := st_heap s in
    Ok (VArr (List.length (cells h)),
        with_heap s (mkHeap (next_id h) (cells h ++ [l]))).

Fixpoint update {A} (l : list A) (i : nat) (x : A) : list A :=
  match l, i with
  | [], _ => []
  | _ :: r, O => x :: r
  | y :: r, S j => y :: update r j x
  end.

(** The elements of an array, for [.map] and for spreading; the source
    only ever does this on arrays. *)
Definition elements (v : value) : M (list value) :=
  match v with
  | VArr loc => reading (fun h => Ok (array_at h loc))
  | _ => throw (TypeError "value is not an array")
  end.

(** [target.push(...items)] *)
Definition push (target : value) (items : list value) : M unit :=
  match target with
  | VArr loc =>
      fun s =>
        let h := st_heap s in
        Ok (tt, with_heap s
                  (mkHeap (next_id h)
                          (update (cells h) loc (array_at (cells h) loc ++ items))))
  | _ => throw (TypeError "push is not a function")
  end.

(** *** utils/helpers.ts: the two stateful helpers *)

Definition createNamedClass (name : string) : M value :=
  fun s =>
    let h := st_heap s in
    Ok (VClass (next_id h) name [] [],
        with_heap s (mkHeap (S (next_id h)) (cells h))).

(** [module.imports = imports] on an object that was just created. *)
Definition with_prop (o : value) (k : string) (v : value) : value :=
  match o with
  | VObj ps => VObj (set_prop ps k v)
  | _ => o
  end.

(** The object is returned updated rather than changed in place: the
    orchestrator always passes one it has just created. *)
Definition appendImports (module imports : value) : M value :=
  (own <- reading (fun h => get h module "imports") ;;
   if negb (truthy own) then ret (with_prop module "imports" imports)
   else (items <- elements imports ;;
         push own items ;;;
         ret module))%M.

Section Engine.

(** What user function [id] does when applied: it may read and change
    the heap, return a value, or throw.  An asynchronous function is
    taken with its awaited outcome. *)
Variable ufun : nat -> list value -> heap -> result (value * heap).

Definition call_user (site : call_site) (id : nat) (args : list value) : M value :=
  fun s =>
    match ufun id args (st_heap s) with
    | Ok (v, h') => Ok (v, mkState h' (st_trace s ++ [mkEvent site (VFun id) args]))
    | Throw e => Throw e
    end.

(** [f(...args)], awaited.  The closures made by the synthesizers first
    await the [useFactory] they wrap, then post-process what it resolved
    to. *)
Fixpoint call (site : call_site) (f : value) (args : list value) : M value :=
  match f with
  | VFun id => call_user site id args
  | VConfigFactory smartConfigBase useFactory =>
      (resolved <- call UseFactorySite useFactory args ;;
       reading (fun h => instantiateSmartConfig h smartConfigBase resolved))%M
  | VExtendedConfigFactory smartConfigBase useFactory =>
      (resolved <- call UseFactorySite useFactory args ;;
       reading (fun h => instantiateExtendedSmartConfig h smartConfigBase resolved))%M
  | VImportFactory smartImportBase useFactory =>
      (resolved <- call UseFactorySite useFactory args ;;
       reading (fun h =>
                  (label <- str_prop h smartImportBase "label" ;;
                   prefix <- str_prop h smartImportBase "prefix" ;;
                   pickLabeledAndPrefixed h resolved label prefix)%res))%M
  | VClass _ _ _ _ =>
      throw (TypeError "Class constructor cannot be invoked without 'new'")
  | _ => throw (TypeError "value is not a function")
  end.

(** *** modules.ts: the synthesizers *)

Definition class_name (c : value) : string :=
  match c with
  | VClass _ name _ _ => name
  | _ => ""
  end.

(** The message of the error thrown for an invalid source; [a] and [b]
    are the two results of [JSON.stringify]. *)
Definition invalid_config_text (smartConfigBase : value) (a b : option string) : string :=
  "SmartConfig: " ++ interpolate a ++ " of [" ++ typeof smartConfigBase ++ "], "
    ++ interpolate b ++ " is not valid smart config base for module".

Definition invalid_import_text (smartImportBase : value) (a b : option string) : string :=
  "SmartImport: " ++ interpolate a ++ " of [" ++ typeof smartImportBase ++ "], "
    ++ interpolate b ++ " is not valid smart import base for module".

Definition invalid_config_message (h : arrays) (smartConfigBase arg : value)
  : result string :=
  (a <- JSON_stringify h smartConfigBase ;;
   b <- JSON_stringify h arg ;;
   Ok (invalid_config_text smartConfigBase a b))%res.

Definition invalid_import_message (h : arrays) (smartImportBase arg : value)
  : result string :=
  (a <- JSON_stringify h smartImportBase ;;
   b <- JSON_stringify h arg ;;
   Ok (invalid_import_text smartImportBase a b))%res.

Definition moduleFromSmartConfig (smartConfigBase arg : value) : M value :=
  if isSmartConfig smartConfigBase then
    (async <- reading (fun h => isAsyncParams h arg) ;;
     if (async : bool) then
       (module <- createNamedClass (class_name smartConfigBase ++ "SmartConfigModule") ;;
        imports <- reading (fun h => get h arg "imports") ;;
        inject <- reading (fun h => get h arg "inject") ;;
        useFactory <- reading (fun h => get h arg "useFactory") ;;
        token <- reading (fun h => get h smartConfigBase "token") ;;
        providers <- new_array
          [VObj [("imports", imports);
                 ("inject", inject);
                 ("useFactory", VConfigFactory smartConfigBase useFactory);
                 ("provide", or_else token smartConfigBase)]] ;;
        token' <- reading (fun h => get h smartConfigBase "token") ;;
        exports <- new_array [or_else token' smartConfigBase] ;;
        ret (VObj [("module", module); ("providers", providers); ("exports", exports)]))
     else
       (module <- createNamedClass (class_name smartConfigBase ++ "SmartConfigModule") ;;
        useValue <- reading (fun h => instantiateSmartConfig h smartConfigBase arg) ;;
        token <- reading (fun h => get h smartConfigBase "token") ;;
        providers <- new_array
          [VObj [("useValue", useValue);
                 ("provide", or_else token smartConfigBase)]] ;;
        token' <- reading (fun h => get h smartConfigBase "token") ;;
        exports <- new_array [or_else token' smartConfigBase] ;;
        ret (VObj [("module", module); ("providers", providers); ("exports", exports)])))%M
  else
    (extended <- reading (fun h => isExtendedSmartConfig h smartConfigBase) ;;
     if (extended : bool) then
       (async <- reading (fun h => isAsyncParams h arg) ;;
        smartConfig <- reading (fun h => get h smartConfigBase "smartConfig") ;;
        if (async : bool) then
          (module <- createNamedClass (class_name smartConfig ++ "SmartConfigModule") ;;
           imports <- reading (fun h => get h arg "imports") ;;
           inject <- reading (fun h => get h arg "inject") ;;
           useFactory <- reading (fun h => get h arg "useFactory") ;;
           token <- reading (fun h => get h smartConfigBase "token") ;;
           providers <- new_array
             [VObj [("imports", imports);
                    ("inject", inject);
                    ("useFactory", VExtendedConfigFactory smartConfigBase useFactory);
                    ("provide", or_else token smartConfig)]] ;;
           token' <- reading (fun h => get h smartConfigBase "token") ;;
           exports <- new_array [or_else token' smartConfig] ;;
           ret (VObj [("module", module); ("providers", providers); ("exports", exports)]))
        else
          (module <- createNamedClass (class_name smartConfig ++ "SmartConfigModule") ;;
           useValue <- reading (fun h => instantiateExtendedSmartConfig h smartConfigBase arg) ;;
           token <- reading (fun h => get h smartConfigBase "token") ;;
           providers <- new_array
             [VObj [("useValue", useValue);
                    ("provide", or_else token smartConfig)]] ;;
           token' <- reading (fun h => get h smartConfigBase "token") ;;
           exports <- new_array [or_else token' smartConfig] ;;
           ret (VObj [("module", module); ("providers", providers); ("exports", exports)])))
     else
       (msg <- reading (fun h => invalid_config_message h smartConfigBase arg) ;;
        throw (JsError msg)))%M.

Definition moduleFromSmartImport (smartImportBase arg : value) : M value :=
  if isSmartImport smartImportBase then
    call NestedModuleSite smartImportBase [arg]
  else
    (extended <- reading (fun h => isExtendedSmartImport h smartImportBase) ;;
     if (extended : bool) then
       (async <- reading (fun h => isAsyncParams h arg) ;;
        smartImport <- reading (fun h => get h smartImportBase "smartImport") ;;
        if (async : bool) then
          (imports <- reading (fun h => get h arg "imports") ;;
           inject <- reading (fun h => get h arg "inject") ;;
           useFactory <- reading (fun h => get h arg "useFactory") ;;
           call NestedModuleSite smartImport
             [VObj [("imports", imports);
                    ("inject", inject);
                    ("useFactory", VImportFactory smartImportBase useFactory)]])
        else
          (picked <- reading (fun h =>
                       (label <- str_prop h smartImportBase "label" ;;
                        prefix <- str_prop h smartImportBase "prefix" ;;
                        pickLabeledAndPrefixed h arg label prefix)%res) ;;
           call NestedModuleSite smartImport [picked]))
     else
       (msg <- reading (fun h => invalid_import_message h smartImportBase arg) ;;
        throw (JsError msg)))%M.

(** *** smartModule.ts: the orchestrator *)

(** [(moduleDefinition.smartConfigs || []).map(c => moduleFromSmartConfig(c, arg))].
    The array that [.map] returns is only ever spread, so it is kept as
    a list. *)
Definition smartConfigModulesOf (moduleDefinition arg : value) : M (list value) :=
  (smartConfigs <- reading (fun h => get h moduleDefinition "smartConfigs") ;;
   if truthy smartConfigs
   then (cs <- elements smartConfigs ;; mapM (fun c => moduleFromSmartConfig c arg) cs)
   else ret [])%M.

(** [(moduleDefinition.smartImports || []).map(c => moduleFromSmartImport(c, arg))] *)
Definition smartImportModulesOf (moduleDefinition arg : value) : M (list value) :=
  (smartImports <- reading (fun h => get h moduleDefinition "smartImports") ;;
   if truthy smartImports
   then (cs <- elements smartImports ;; mapM (fun c => moduleFromSmartImport c arg) cs)
   else ret [])%M.

(** [{ module, ...moduleDefinition }] *)
Definition withModule (module moduleDefinition : value) : M value :=
  reading (fun h => Ok (VObj (assign [("module", module)] (spread_props h moduleDefinition)))).

(** [[...inlineSmartConfigModules, ...smartConfigModules, ...smartImportModules]] *)
Definition allImports (inlineSmartConfigModules : value)
           (smartConfigModules smartImportModules : list value) : M value :=
  (inline <- elements inlineSmartConfigModules ;;
   new_array (inline ++ smartConfigModules ++ smartImportModules))%M.

Definition instantiateInline (arg c : value) : M value :=
  if isSmartConfig c
  then reading (fun h => instantiateSmartConfig h c arg)
  else reading (fun h => instantiateExtendedSmartConfig h c arg).

(** The closure that [smartModule(...inlineSmartConfigs, smartModuleOrFactory)]
    returns, applied to [arg].  [this_] is [this?.name]: the name of the
    class the closure is a static member of, if any. *)
Definition smartModule (inlineSmartConfigs : list value) (smartModuleOrFactory : value)
           (this_ : option string) (arg : value) : M value :=
  (module <- createNamedClass (str_of this_ ++ "SmartModule") ;;
   inlineModules <- mapM (fun c => moduleFromSmartConfig c arg) inlineSmartConfigs ;;
   inlineSmartConfigModules <- new_array inlineModules ;;
   if isSmartModule smartModuleOrFactory then
     (let moduleDefinition := smartModuleOrFactory in
      smartConfigModules <- smartConfigModulesOf moduleDefinition arg ;;
      smartImportModules <- smartImportModulesOf moduleDefinition arg ;;
      target <- withModule module moduleDefinition ;;
      imports <- allImports inlineSmartConfigModules smartConfigModules smartImportModules ;;
      appendImports target imports)
   else
     (async <- reading (fun h => isAsyncParams h arg) ;;
      if (async : bool) then
        (moduleDefinition <- call FactorySite smartModuleOrFactory [inlineSmartConfigModules] ;;
         smartConfigModules <- smartConfigModulesOf moduleDefinition arg ;;
         smartImportModules <- smartImportModulesOf moduleDefinition arg ;;
         again <- call FactorySite smartModuleOrFactory [inlineSmartConfigModules] ;;
         target <- withModule module again ;;
         imports <- allImports inlineSmartConfigModules smartConfigModules smartImportModules ;;
         appendImports target imports)
      else
        (inlineSmartConfigInstances <- mapM (instantiateInline arg) inlineSmartConfigs ;;
         moduleDefinition <- call FactorySite smartModuleOrFactory
                                  (inlineSmartConfigModules :: inlineSmartConfigInstances) ;;
         smartConfigModules <- smartConfigModulesOf moduleDefinition arg ;;
         smartImportModules <- smartImportModulesOf moduleDefinition arg ;;
         again <- call FactorySite smartModuleOrFactory
                       (inlineSmartConfigModules :: inlineSmartConfigInstances) ;;
         target <- withModule module again ;;
         imports <- allImports inlineSmartConfigModules smartConfigModules smartImportModules ;;
         appendImports target imports)))%M.

End Engine.

(** ** Running a computation *)

Definition initial (h : heap) : state := mkState h [].

(** A user environment with no functions in it. *)
Definition no_functions : nat -> list value -> heap -> result (value * heap) :=
  fun _ _ _ => Throw (TypeError "no such function").

(** ** What a computation may do

    Predicates used to state the properties below. *)

(** The outcome is not the [Error] that reports an invalid source. *)
Definition no_js_error {A} (r : result A) : Prop :=
  match r with
  | Throw (JsError _) => False
  | _ => True
  end.


(** Every completed run of [m] relates its first state to its last. *)
Definition within (R : state -> state -> Prop) {A} (m : M A) : Prop :=
  forall s a s', m s = Ok (a, s') -> R s s'.

(** The arrays that existed are unchanged; arrays may have been added. *)
Definition grows (s s' : state) : Prop :=
  List.length (cells (st_heap s)) <= List.length (cells (st_heap s'))
  /\ forall loc, loc < List.length (cells (st_heap s)) ->
       array_at (cells (st_heap s')) loc = array_at (cells (st_heap s)) loc.

Definition is_factory_call (e : event) : bool :=
  match ev_site e with
  | FactorySite => true
  | _ => false
  end.

(** The calls made to the module factory, oldest first. *)
Definition factory_calls (t : list event) : list event := filter is_factory_call t.

Definition same_factory_calls (s s' : state) : Prop :=
  factory_calls (st_trace s') = factory_calls (st_trace s).

(** A user function only adds arrays to the store. *)
Definition allocates_only (ufun : nat -> list value -> heap -> result (value * heap)) : Prop :=
  forall id args h v h',
    ufun id args h = Ok (v, h') ->
    List.length (cells h) <= List.length (cells h')
    /\ forall loc, loc < List.length (cells h) ->
         array_at (cells h') loc = array_at (cells h) loc.

(** The elements of the array that a descriptor holds under key [k], if
    it holds one. *)
Definition declared (h : arrays) (definition : props) (k : string) : list value :=
  match lookup k definition with
  | Some (VArr loc) => array_at h loc
  | _ => []
  end.

(** Every array the descriptor holds is in the store. *)
Definition arrays_allocated (h : arrays) (definition : props) : Prop :=
  forall k loc, lookup k definition = Some (VArr loc) -> loc < List.length h.

(** User function [id] returns descriptor objects, whose arrays are in the
    store it leaves. *)
Definition returns_descriptors
           (ufun : nat -> list value -> heap -> result (value * heap)) (id : nat) : Prop :=
  forall args h v h',
    ufun id args h = Ok (v, h') ->
    exists definition,
      v = VObj definition /\ wf_props definition /\ arrays_allocated (cells h') definition.

(** The instantiation of an inline schema that the module factory is
    handed, against the arrays [h]. *)
Definition instantiated (h : arrays) (arg c : value) : result value :=
  if isSmartConfig c
  then instantiateSmartConfig h c arg
  else instantiateExtendedSmartConfig h c arg.

(** [m] is a synthetic module made from [c] by [f], at some point. *)
Definition made_by (f : value -> M value) (c m : value) : Prop :=
  exists s s', f c s = Ok (m, s').

(** ** Observing a synthetic module *)

Definition first_element (h : arrays) (v : value) : value :=
  match v with
  | VArr loc => nth 0 (array_at h loc) VUndefined
  | _ => VUndefined
  end.

(** [module.providers[0].provide] and [module.exports[0]]: the token the
    single provider is registered under, and the token exported. *)
Definition registered_token (r : result (value * state)) : result (value * value) :=
  match r with
  | Ok (m, s) =>
      let h := cells (st_heap s) in
      (providers <- get h m "providers" ;;
       provide <- get h (first_element h providers) "provide" ;;
       exports <- get h m "exports" ;;
       Ok (provide, first_element h exports))%res
  | Throw e => Throw e
  end.

(** [module.providers[0].useValue] *)
Definition provided_value (r : result (value * state)) : result value :=
  match r with
  | Ok (m, s) =>
      let h := cells (st_heap s) in
      (providers <- get h m "providers" ;;
       get h (first_element h providers) "useValue")%res
  | Throw e => Throw e
  end.

(** [module.module.name] *)
Definition module_name (r : result (value * state)) : result value :=
  match r with
  | Ok (m, s) =>
      let h := cells (st_heap s) in
      (identity <- get h m "module" ;; get h identity "name")%res
  | Throw e => Throw e
  end.

(** [module.imports[i]], with the state it is read in. *)
Definition import_at (i : nat) (r : result (value * state)) : result (value * state) :=
  match r with
  | Ok (m, s) =>
      let h := cells (st_heap s) in
      match get h m "imports" with
      | Ok (VArr loc) => Ok (nth i (array_at h loc) VUndefined, s)
      | Ok _ => Ok (VUndefined, s)
      | Throw e => Throw e
      end
  | Throw e => Throw e
  end.

(** [module.imports.length] *)
Definition imports_length (r : result (value * state)) : result value :=
  match r with
  | Ok (m, s) =>
      let h := cells (st_heap s) in
      (imports <- get h m "imports" ;; get h imports "length")%res
  | Throw e => Throw e
  end.

(** ** Sample data: the schemas and inputs of the package's own tests *)

Module Samples.

(** [class Config { requiredProp: string; defaultProp? = 'default' }] *)
Definition Config : value :=
  VClass 1 "Config" [] [("defaultProp", VStr "default")].

(** The same schema with [static token = 'STATIC_TOKEN']. *)
Definition ConfigWithStaticToken : value :=
  VClass 2 "ConfigWithStaticToken"
         [("token", VStr "STATIC_TOKEN")] [("defaultProp", VStr "default")].

(** [class DbConfig { static label = 'db'; url: string }] *)
Definition DbConfig : value :=
  VClass 3 "DbConfig" [("label", VStr "db")] [].

Definition input : value := VObj [("requiredProp", VStr "test")].

Definition empty_heap : heap := mkHeap 10 [].

(** [{ imports: [], inject: [], useFactory: () => ({ requiredProp: 'test' }) }],
    with its two arrays in cells 0 and 1 of [async_heap] and its
    [useFactory] the user function 7 of [functions]. *)
Definition async_input : value :=
  VObj [("imports", VArr 0); ("inject", VArr 1); ("useFactory", VFun 7)].

Definition async_heap : heap := mkHeap 10 [[]; []].

(** The user functions of the samples: 7 is [() => input]; 8 is the
    module factory [imports => ({ imports })]; 9 is a nested module
    [() => ({ module: class Nested {} })]. *)
Definition functions : nat -> list value -> heap -> result (value * heap) :=
  fun id args h =>
    match id with
    | 7 => Ok (input, h)
    | 8 => Ok (VObj [("imports", hd VUndefined args)], h)
    | 9 => Ok (VObj [("module", VClass 4 "Nested" [] [])], h)
    | _ => Throw (TypeError "no such function")
    end.

(** [smartModule(Config, imports => ({ imports }))(input)] *)
Definition factory_run : result (value * state) :=
  smartModule functions [Config] (VFun 8) None input (initial empty_heap).

Definition completed (r : result (value * state)) : value * state :=
  match r with
  | Ok p => p
  | Throw _ => (VUndefined, initial empty_heap)
  end.

(** [smartModule({ imports: [DbModule], smartConfigs: [Config],
    smartImports: [nested] })], the descriptor's three arrays in cells 0,
    1 and 2 of [static_heap]. *)
Definition static_definition : props :=
  [("imports", VArr 0); ("smartConfigs", VArr 1); ("smartImports", VArr 2)].

Definition static_heap : heap :=
  mkHeap 10 [[VClass 5 "DbModule" [] []]; [Config]; [VFun 9]].

Definition static_run (s : state) : result (value * state) :=
  smartModule functions [] (VObj static_definition) None input s.

(** [class A { static label = 'a'; port }], [class B { static label = 'b'; port }] *)
Definition A : value := VClass 6 "A" [("label", VStr "a")] [].
Definition B : value := VClass 7 "B" [("label", VStr "b")] [].

Definition labelled_input : value :=
  VObj [("a", VObj [("port", VNum 1)]); ("b", VObj [("port", VNum 2)])].

(** [class NullableConfig { nullable?; optional?; required }] *)
Definition NullableConfig : value := VClass 8 "NullableConfig" [] [].

(** [class UrlConfig { url: string }], and the nested module
    [smartModule({ smartConfigs: [UrlConfig] })] as user function 10 of
    [with_nested]; cell 0 of [nested_heap] is [[UrlConfig]], cell 1 is
    [[{ smartImport: nested, prefix: 'db_' }]]. *)
Definition UrlConfig : value := VClass 9 "UrlConfig" [] [].

Definition nested_heap : heap :=
  mkHeap 20 [[UrlConfig]; [VObj [("smartImport", VFun 10); ("prefix", VStr "db_")]]].

Definition with_nested : nat -> list value -> heap -> result (value * heap) :=
  fun id args h =>
    match id with
    | 10 =>
        match smartModule functions [] (VObj [("smartConfigs", VArr 0)]) None
                          (hd VUndefined args) (initial h) with
        | Ok (m, s) => Ok (m, st_heap s)
        | Throw e => Throw e
        end
    | _ => functions id args h
    end.

End Samples.

(** ** Notions for the further properties *)

(** The static [k] that an extended reference makes effective: its own
    value when that is a string, the schema's otherwise. *)
Definition effective_static (reference statics : props) (k : string) : value :=
  match lookup k reference with
  | Some (VStr s) => VStr s
  | _ => or_undefined (lookup k statics)
  end.

(** A property that the source types as [string | undefined], as the
    value an object holds for it. *)
Definition optional (s : option string) : value :=
  match s with
  | Some x => VStr x
  | None => VUndefined
  end.

(** A user function never takes an identity back: the classes it creates
    are new ones. *)
Definition keeps_identities
           (ufun : nat -> list value -> heap -> result (value * heap)) : Prop :=
  forall id args h v h', ufun id args h = Ok (v, h') -> next_id h <= next_id h'.

(** No identity handed out before is handed out again. *)
Definition identities_kept (s s' : state) : Prop :=
  next_id (st_heap s) <= next_id (st_heap s').






(** ** Further observers and samples *)

(** [module[k]] as a list, when it is an array: the elements it has in
    the state the run ended in. *)
Definition listed (k : string) (r : result (value * state)) : result (list value) :=
  match r with
  | Ok (m, s) =>
      let h := cells (st_heap s) in
      match get h m k with
      | Ok (VArr loc) => Ok (array_at h loc)
      | Ok _ => Throw (TypeError "not an array")
      | Throw e => Throw e
      end
  | Throw e => Throw e
  end.





(** User function 11 is the module factory
    [() => ({ smartImports: [nested] })], which makes its array anew at
    each call; 12 is the nested module [() => ({ module: class Nested {} })]. *)
Definition nesting_functions : nat -> list value -> heap -> result (value * heap) :=
  fun id args h =>
    match id with
    | 11 => Ok (VObj [("smartImports", VArr (List.length (cells h)))],
                mkHeap (next_id h) (cells h ++ [[VFun 12]]))
    | 12 => Ok (VObj [("module", VClass 4 "Nested" [] [])], h)
    | _ => Throw (TypeError "no such function")
    end.

(** * Properties *)

(** ** Property lists *)

Lemma lookup_set_prop (k k' : string) (v : value) (o : props) :
  lookup k (set_prop o k' v) = if String.eqb k k' then Some v else lookup k o.
Proof.
  induction o as [|[k0 v0] r IH]; simpl.
  - destruct (String.eqb k k'); reflexivity.
  - destruct (String.eqb k' k0) eqn:E; simpl.
    + apply String.eqb_eq in E; subst k0.
      destruct (String.eqb k k'); reflexivity.
    + destruct (String.eqb k k0) eqn:E2.
      * apply String.eqb_eq in E2; subst k0.
        rewrite String.eqb_sym, E. reflexivity.
      * exact IH.
Qed.

Lemma lookup_app (k : string) (a b : props) :
  lookup k (a ++ b) = match lookup k a with Some v => Some v | None => lookup k b end.
Proof.
  induction a as [|[k0 v0] r IH]; simpl; [reflexivity|].
  destruct (String.eqb k k0); [reflexivity | exact IH].
Qed.

Lemma lookup_assign (k : string) (src target : props) :
  lookup k (assign target src) =
  match lookup k (rev src) with Some v => Some v | None => lookup k target end.
Proof.
  revert target; induction src as [|[k0 v0] r IH]; intro target; simpl; [reflexivity|].
  unfold assign in *. simpl. rewrite IH, lookup_app, lookup_set_prop. simpl.
  destruct (lookup k (rev r)); [reflexivity|].
  destruct (String.eqb k k0); reflexivity.
Qed.

Lemma lookup_None_keys (k : string) (o : props) :
  lookup k o = None <-> ~ In k (keys o).
Proof.
  induction o as [|[k0 v0] r IH]; simpl; [tauto|].
  destruct (String.eqb k k0) eqn:E.
  - apply String.eqb_eq in E; subst. split; [discriminate | intro H; exfalso; apply H; auto].
  - apply String.eqb_neq in E. rewrite IH. split.
    + intros H [H1|H1]; [congruence | auto].
    + intros H H1. apply H; auto.
Qed.

Lemma lookup_rev_wf (k : string) (o : props) :
  wf_props o -> lookup k (rev o) = lookup k o.
Proof.
  unfold wf_props. induction o as [|[k0 v0] r IH]; simpl; intro H; [reflexivity|].
  inversion H as [|? ? Hnot Hr]; subst.
  rewrite lookup_app, (IH Hr). simpl.
  destruct (String.eqb k k0) eqn:E.
  - apply String.eqb_eq in E; subst k0.
    apply lookup_None_keys in Hnot. rewrite Hnot. reflexivity.
  - destruct (lookup k r); reflexivity.
Qed.

Lemma set_prop_fresh (o : props) (k : string) (v : value) :
  ~ In k (keys o) -> set_prop o k v = o ++ [(k, v)].
Proof.
  induction o as [|[k0 v0] r IH]; simpl; intro H; [reflexivity|].
  destruct (String.eqb k k0) eqn:E.
  - apply String.eqb_eq in E. exfalso; apply H; auto.
  - rewrite IH; [reflexivity | intro; apply H; auto].
Qed.

Lemma assign_fresh (src target : props) :
  wf_props (target ++ src) -> assign target src = target ++ src.
Proof.
  unfold wf_props, keys.
  revert target; induction src as [|[k0 v0] r IH]; intro target; intro H.
  - simpl. now rewrite app_nil_r.
  - unfold assign in *. simpl.
    rewrite set_prop_fresh.
    + rewrite IH; rewrite <- app_assoc; [reflexivity | exact H].
    + rewrite map_app in H. simpl in H. apply NoDup_remove_2 in H.
      intro Hin. apply H. apply in_or_app. left. exact Hin.
Qed.

Lemma fromEntries_wf (l : props) : wf_props l -> fromEntries l = l.
Proof. intro H. unfold fromEntries. now rewrite assign_fresh. Qed.

Lemma wf_filter (p : string * value -> bool) (l : props) :
  wf_props l -> wf_props (filter p l).
Proof.
  unfold wf_props, keys. induction l as [|a r IH]; simpl; intro H; [constructor|].
  inversion H as [|? ? Hnot Hr]; subst.
  destruct (p a); simpl; [constructor|]; auto.
  intro Hin. apply Hnot. apply in_map_iff in Hin. destruct Hin as [x [Hx Hin]].
  apply filter_In in Hin. apply in_map_iff. exists x. tauto.
Qed.

Lemma lookup_filter_defined (k : string) (l : props) :
  wf_props l ->
  lookup k (filter (fun kv => is_defined (snd kv)) l) =
  match lookup k l with
  | Some VUndefined => None
  | other => other
  end.
Proof.
  unfold wf_props. induction l as [|[k0 v0] r IH]; simpl; intro H; [reflexivity|].
  inversion H as [|? ? Hnot Hr]; subst.
  destruct (String.eqb k k0) eqn:E.
  - apply String.eqb_eq in E; subst k0.
    destruct (is_defined v0) eqn:D; simpl.
    + rewrite String.eqb_refl. destruct v0; try reflexivity; discriminate.
    + destruct v0; try discriminate.
      rewrite (IH Hr). apply lookup_None_keys in Hnot. rewrite Hnot. reflexivity.
  - destruct (is_defined v0); simpl; [rewrite E|]; auto.
Qed.

Lemma filter_all_defined (l : props) :
  (forall k v, In (k, v) l -> v <> VUndefined) ->
  filter (fun kv => is_defined (snd kv)) l = l.
Proof.
  induction l as [|[k0 v0] r IH]; simpl; intro H; [reflexivity|].
  assert (D : is_defined v0 = true).
  { specialize (H k0 v0 (or_introl eq_refl)). destruct v0; try reflexivity; congruence. }
  rewrite D, IH; [reflexivity|]. intros k v Hin. apply (H k v). now right.
Qed.

(** ** Strings: prefixes *)

Lemma substring_whole (s : string) : substring 0 (String.length s) s = s.
Proof. induction s as [|c r IH]; simpl; [reflexivity | now rewrite IH]. Qed.

Lemma prefix_append (p k : string) : String.prefix p (p ++ k) = true.
Proof.
  induction p as [|c r IH]; simpl; [destruct k; reflexivity|].
  destruct (Ascii.ascii_dec c c); [exact IH | congruence].
Qed.

Lemma drop_chars_append (p k : string) : drop_chars (String.length p) (p ++ k) = k.
Proof.
  unfold drop_chars. induction p as [|c r IH]; simpl.
  - rewrite Nat.sub_0_r. apply substring_whole.
  - exact IH.
Qed.

Lemma prefix_split (p s : string) :
  String.prefix p s = true -> s = (p ++ drop_chars (String.length p) s)%string.
Proof.
  unfold drop_chars. revert s; induction p as [|c r IH]; intros s H.
  - simpl. rewrite Nat.sub_0_r. symmetry. apply substring_whole.
  - destruct s as [|c' s']; [discriminate|]. simpl in H.
    destruct (Ascii.ascii_dec c c'); [subst c' | discriminate].
    simpl. f_equal. apply IH. exact H.
Qed.

Lemma append_eqb (p a b : string) :
  String.eqb (p ++ a)%string (p ++ b)%string = String.eqb a b.
Proof.
  induction p as [|c r IH]; simpl; [reflexivity|].
  rewrite Ascii.eqb_refl. exact IH.
Qed.

Lemma lookup_stripped (p k : string) (ps : props) :
  lookup k (map (strip p) (filter (starts_with p) ps)) = lookup (p ++ k)%string ps.
Proof.
  induction ps as [|[k0 v0] r IH]; simpl; [reflexivity|].
  unfold starts_with at 1. simpl.
  destruct (String.prefix p k0) eqn:E; simpl.
  - rewrite IH. rewrite (prefix_split p k0 E) at 2. now rewrite append_eqb.
  - rewrite IH. destruct (String.eqb (p ++ k)%string k0) eqn:E2; [|reflexivity].
    apply String.eqb_eq in E2. subst k0. rewrite prefix_append in E. discriminate.
Qed.

Lemma wf_stripped (p : string) (ps : props) :
  wf_props ps -> wf_props (map (strip p) (filter (starts_with p) ps)).
Proof.
  unfold wf_props. induction ps as [|[k0 v0] r IH]; simpl; intro H; [constructor|].
  inversion H as [|? ? Hnot Hr]; subst.
  unfold starts_with at 1. simpl.
  destruct (String.prefix p k0) eqn:E; simpl; [constructor|]; auto.
  apply lookup_None_keys. rewrite lookup_stripped.
  rewrite <- (prefix_split p k0 E). now apply lookup_None_keys.
Qed.


Lemma lookup_spread (k : string) (a b : props) :
  wf_props a -> wf_props b ->
  lookup k (spread a b) =
  match lookup k b with Some v => Some v | None => lookup k a end.
Proof.
  intros Ha Hb. unfold spread.
  rewrite lookup_assign, (lookup_rev_wf k b Hb).
  destruct (lookup k b); [reflexivity|].
  rewrite lookup_assign, (lookup_rev_wf k a Ha). simpl.
  destruct (lookup k a); reflexivity.
Qed.

Lemma applyProps_object (h : arrays) (id : nat) (name : string) (statics D E : props) :
  wf_props E ->
  applyPropsToSmartConfig h (VClass id name statics D) (VObj E)
  = Ok (VObj (spread D (defined_props E))).
Proof.
  intro HE. unfold applyPropsToSmartConfig. simpl.
  rewrite fromEntries_wf; [reflexivity|]. now apply wf_filter.
Qed.

Lemma pickLabel_unset (h : arrays) (input : value) (label : option string) :
  is_set label = false -> pickLabel h input label = Ok input.
Proof. intro H. unfold pickLabel. now rewrite H. Qed.

Lemma prefix_unset (h : arrays) (obj : value) (prefix : option string) :
  is_set prefix = false ->
  (filtered <- filterByPrefix h obj prefix ;; removePrefix h filtered prefix)%res = Ok obj.
Proof. intro H. unfold filterByPrefix, removePrefix. now rewrite H. Qed.

(** C4.  Instantiation is [{ ...defaults, ...definedProperties }]: a
    property set to [undefined] keeps the default, a property set to
    [null] overrides it, properties unknown to the schema are copied,
    and when every property of the input is defined the result is
    [{ ...defaults, ...input }]. *)
Theorem instantiate_merges_defaults
  (h : arrays) (id : nat) (name : string) (statics D E : props) :
  wf_props D -> wf_props E ->
  applyPropsToSmartConfig h (VClass id name statics D) (VObj E)
    = Ok (VObj (spread D (defined_props E)))
  /\ (forall k, lookup k E = Some VUndefined ->
        lookup k (spread D (defined_props E)) = lookup k D)
  /\ (forall k, lookup k E = Some VNull ->
        lookup k (spread D (defined_props E)) = Some VNull)
  /\ (forall k v, lookup k E = Some v -> v <> VUndefined ->
        lookup k (spread D (defined_props E)) = Some v)
  /\ (forall k, lookup k E = None ->
        lookup k (spread D (defined_props E)) = lookup k D)
  /\ (forall arg,
        pickLabeledAndPrefixed h arg
          (as_string (or_undefined (lookup "label" statics)))
          (as_string (or_undefined (lookup "prefix" statics))) = Ok (VObj E) ->
        instantiateSmartConfig h (VClass id name statics D) arg
          = Ok (VObj (spread D (defined_props E))))
  /\ ((forall k v, In (k, v) E -> v <> VUndefined) ->
        applyPropsToSmartConfig h (VClass id name statics D) (VObj E)
          = Ok (VObj (spread D E))
        /\ (is_set (as_string (or_undefined (lookup "label" statics))) = false ->
            is_set (as_string (or_undefined (lookup "prefix" statics))) = false ->
            instantiateSmartConfig h (VClass id name statics D) (VObj E)
              = Ok (VObj (spread D E)))).
Proof.
  intros HD HE.
  assert (Hdef : wf_props (defined_props E)) by now apply wf_filter.
  assert (L : forall k, lookup k (spread D (defined_props E)) =
                        match lookup k E with
                        | Some VUndefined | None => lookup k D
                        | Some v => Some v
                        end).
  { intro k. rewrite (lookup_spread k D _ HD Hdef).
    unfold defined_props. rewrite (lookup_filter_defined k E HE).
    destruct (lookup k E) as [[]|]; reflexivity. }
  repeat split.
  - now apply applyProps_object.
  - intros k Hk. now rewrite L, Hk.
  - intros k Hk. now rewrite L, Hk.
  - intros k v Hk Hv. rewrite L, Hk. destruct v; congruence.
  - intros k Hk. now rewrite L, Hk.
  - intros arg Hpick. unfold instantiateSmartConfig, str_prop. simpl.
    rewrite Hpick. simpl. now apply applyProps_object.
  - rewrite applyProps_object by exact HE.
    unfold defined_props. now rewrite filter_all_defined.
  - intros Hl Hp. unfold instantiateSmartConfig, str_prop. simpl.
    unfold pickLabeledAndPrefixed.
    rewrite (pickLabel_unset h _ _ Hl). simpl. rewrite (prefix_unset h _ _ Hp). simpl.
    rewrite applyProps_object by exact HE.
    unfold defined_props. now rewrite filter_all_defined.
Qed.

Ltac solve_wf :=
  unfold wf_props, keys; simpl;
  repeat (constructor; [simpl; intuition discriminate|]);
  constructor.

Lemma instantiate_merges_defaults_witness :
  wf_props [("defaultProp", VStr "default")]
  /\ wf_props [("requiredProp", VStr "test"); ("extra", VNull); ("defaultProp", VUndefined)]
  /\ applyPropsToSmartConfig []
       Samples.Config
       (VObj [("requiredProp", VStr "test"); ("extra", VNull); ("defaultProp", VUndefined)])
     = Ok (VObj [("defaultProp", VStr "default"); ("requiredProp", VStr "test");
                 ("extra", VNull)]).
Proof.
  assert (HD : wf_props [("defaultProp", VStr "default")]) by solve_wf.
  assert (HE : wf_props [("requiredProp", VStr "test"); ("extra", VNull);
                         ("defaultProp", VUndefined)]) by solve_wf.
  split; [exact HD | split; [exact HE |]].
  exact (proj1 (instantiate_merges_defaults [] 1 "Config" [] _ _ HD HE)).
Defined.

(** ** The namespacing engine *)

Lemma prefix_set_object (h : arrays) (ps : props) (prefix : option string) :
  wf_props ps -> is_set prefix = true ->
  (filtered <- filterByPrefix h (VObj ps) prefix ;; removePrefix h filtered prefix)%res
  = Ok (VObj (map (strip (str_of prefix)) (filter (starts_with (str_of prefix)) ps))).
Proof.
  intros Hwf H. unfold filterByPrefix, removePrefix. rewrite H. simpl.
  rewrite (fromEntries_wf (filter _ ps)) by now apply wf_filter.
  now rewrite fromEntries_wf by now apply wf_stripped.
Qed.

(** C8.  Extraction looks the label up first, then keeps the properties
    whose key starts with the prefix and strips the prefix from them; with
    neither label nor prefix it returns its input itself; and extracting
    by label, then by prefix, is extracting by both. *)
Theorem extract_label_then_prefix
  (h : arrays) (input : value) (label prefix : option string) :
  (is_set label = false -> is_set prefix = false ->
     pickLabeledAndPrefixed h input label prefix = Ok input)
  /\ (forall ps, pickLabel h input label = Ok (VObj ps) -> wf_props ps ->
        is_set prefix = true ->
        pickLabeledAndPrefixed h input label prefix
          = Ok (VObj (map (strip (str_of prefix)) (filter (starts_with (str_of prefix)) ps)))
        /\ forall k,
            lookup k (map (strip (str_of prefix)) (filter (starts_with (str_of prefix)) ps))
            = lookup (str_of prefix ++ k)%string ps)
  /\ (labeled <- pickLabeledAndPrefixed h input label None ;;
      pickLabeledAndPrefixed h labeled None prefix)%res
     = pickLabeledAndPrefixed h input label prefix.
Proof.
  repeat split.
  - intros Hl Hp. unfold pickLabeledAndPrefixed.
    rewrite (pickLabel_unset h input label Hl). simpl. now apply prefix_unset.
  - unfold pickLabeledAndPrefixed. rewrite H. simpl. now apply prefix_set_object.
  - intro k. apply lookup_stripped.
  - unfold pickLabeledAndPrefixed. destruct (pickLabel h input label) as [labeled|e]; simpl.
    + reflexivity.
    + reflexivity.
Qed.

Lemma extract_label_then_prefix_witness :
  pickLabeledAndPrefixed []
    (VObj [("db", VObj [("db_url", VStr "x"); ("port", VNum 1)])]) (Some "db") (Some "db_")
  = Ok (VObj [("url", VStr "x")]).
Proof.
  assert (Hwf : wf_props [("db_url", VStr "x"); ("port", VNum 1)]) by solve_wf.
  exact (proj1 (proj1 (proj2 (extract_label_then_prefix []
           (VObj [("db", VObj [("db_url", VStr "x"); ("port", VNum 1)])])
           (Some "db") (Some "db_"))) _ eq_refl Hwf eq_refl)).
Defined.

(** C3, as the code has it.  With a label that is set, an input that is
    [undefined] or [null] makes extraction fail with a TypeError; it is a
    plain object without that key, the label not naming a member that
    every object inherits, whose lookup yields [undefined], which
    extraction returns when no prefix is set. *)
Theorem extract_label_on_missing_input
  (h : arrays) (label : string) (prefix : option string) :
  label <> "" ->
  pickLabeledAndPrefixed h VUndefined (Some label) prefix
    = Throw (TypeError ("Cannot read properties of undefined (reading '" ++ label ++ "')"))
  /\ pickLabeledAndPrefixed h VNull (Some label) prefix
    = Throw (TypeError ("Cannot read properties of null (reading '" ++ label ++ "')"))
  /\ (forall ps, inherited label = false -> lookup label ps = None ->
        pickLabel h (VObj ps) (Some label) = Ok VUndefined
        /\ (is_set prefix = false ->
            pickLabeledAndPrefixed h (VObj ps) (Some label) prefix = Ok VUndefined)).
Proof.
  intro Hl.
  assert (Hset : is_set (Some label) = true).
  { simpl. apply String.eqb_neq in Hl. now rewrite Hl. }
  unfold pickLabeledAndPrefixed, pickLabel. rewrite Hset. simpl.
  split; [reflexivity | split; [reflexivity|]].
  intros ps _ H. split.
  - now rewrite H.
  - intro Hp. rewrite H. simpl. now apply prefix_unset.
Qed.

Lemma extract_label_on_missing_input_witness :
  pickLabeledAndPrefixed [] (VObj [("cache", VObj [])]) (Some "db") None = Ok VUndefined.
Proof.
  assert (Hl : "db" <> "") by discriminate.
  exact (proj2 (proj2 (proj2 (extract_label_on_missing_input [] "db" None Hl))
                 [("cache", VObj [])] eq_refl eq_refl) eq_refl).
Defined.

(** C3 as stated fails: the lookup on a missing input does not yield
    [undefined], it throws. *)
Lemma extract_undefined_input_throws :
  pickLabeledAndPrefixed [] VUndefined (Some "db") None
    = Throw (TypeError "Cannot read properties of undefined (reading 'db')")
  /\ pickLabeledAndPrefixed [] VNull (Some "db") None
    = Throw (TypeError "Cannot read properties of null (reading 'db')")
  /\ instantiateSmartConfig [] Samples.DbConfig VUndefined
    = Throw (TypeError "Cannot read properties of undefined (reading 'db')").
Proof. repeat split. Qed.

(** ** Errors raised by the helpers

    The helpers read properties and enumerate entries; whatever they throw
    is a TypeError, never the [Error] that reports an invalid source. *)

Create HintDb nojs.

Lemma no_js_Ok {A} (a : A) : no_js_error (Ok a).
Proof. exact I. Qed.

Lemma no_js_TypeError {A} (msg : string) : no_js_error (@Throw A (TypeError msg)).
Proof. exact I. Qed.

Lemma no_js_rbind {A B} (r : result A) (k : A -> result B) :
  no_js_error r -> (forall a, no_js_error (k a)) -> no_js_error (rbind r k).
Proof. intros Hr Hk. destruct r as [a|[msg|msg]]; simpl; auto. Qed.

Lemma no_js_if {A} (b : bool) (x y : result A) :
  no_js_error x -> no_js_error y -> no_js_error (if b then x else y).
Proof. destruct b; auto. Qed.

#[local] Hint Resolve no_js_Ok no_js_TypeError no_js_rbind no_js_if : nojs.

Lemma no_js_get (h : arrays) (o : value) (k : string) : no_js_error (get h o k).
Proof. destruct o; simpl; exact I. Qed.

Lemma no_js_entries (h : arrays) (o : value) : no_js_error (entries h o).
Proof. destruct o; simpl; exact I. Qed.

Lemma no_js_construct (c : value) : no_js_error (construct c).
Proof. destruct c; simpl; exact I. Qed.

#[local] Hint Resolve no_js_get no_js_entries no_js_construct : nojs.

Lemma no_js_str_prop (h : arrays) (o : value) (k : string) : no_js_error (str_prop h o k).
Proof. unfold str_prop. auto with nojs. Qed.

Lemma no_js_pick (h : arrays) (o : value) (label prefix : option string) :
  no_js_error (pickLabeledAndPrefixed h o label prefix).
Proof.
  unfold pickLabeledAndPrefixed, pickLabel, filterByPrefix, removePrefix.
  repeat (apply no_js_rbind || apply no_js_if || intro); auto with nojs.
Qed.

Lemma no_js_applyProps (h : arrays) (c o : value) :
  no_js_error (applyPropsToSmartConfig h c o).
Proof. unfold applyPropsToSmartConfig. auto 6 with nojs. Qed.

#[local] Hint Resolve no_js_str_prop no_js_pick no_js_applyProps : nojs.

Lemma no_js_instantiate (h : arrays) (c arg : value) :
  no_js_error (instantiateSmartConfig h c arg).
Proof. unfold instantiateSmartConfig. auto 8 with nojs. Qed.

Lemma no_js_instantiateExtended (h : arrays) (c arg : value) :
  no_js_error (instantiateExtendedSmartConfig h c arg).
Proof.
  unfold instantiateExtendedSmartConfig.
  repeat (apply no_js_rbind || apply no_js_if || intro); auto with nojs.
Qed.

Lemma no_js_isAsyncParams (h : arrays) (o : value) : no_js_error (isAsyncParams h o).
Proof. unfold isAsyncParams. auto with nojs. Qed.

#[local] Hint Resolve no_js_instantiate no_js_instantiateExtended no_js_isAsyncParams : nojs.








(** ** The module synthesizer for schemas *)



Lemma array_at_allocated (h : arrays) (loc : nat) :
  array_at h loc <> [] -> loc < List.length h.
Proof.
  unfold array_at. intro H. destruct (Nat.lt_ge_cases loc (List.length h)) as [L|L]; [exact L|].
  exfalso. apply H. now apply nth_overflow.
Qed.

Lemma array_at_app (h more : arrays) (loc : nat) :
  loc < List.length h -> array_at (h ++ more) loc = array_at h loc.
Proof. intro H. unfold array_at. now apply app_nth1. Qed.

Lemma array_at_last (h : arrays) (x : list value) :
  array_at (h ++ [x]) (List.length h) = x.
Proof. unfold array_at. apply nth_middle. Qed.

Lemma array_at_last2 (h : arrays) (x y : list value) :
  array_at ((h ++ [x]) ++ [y]) (List.length h) = x.
Proof.
  rewrite array_at_app; [apply array_at_last|].
  rewrite length_app. simpl. lia.
Qed.




(** C1 at its four combinations.  A plain schema is registered under its
    static token, or under itself; an extended reference under its inline
    token; but an extended reference without a token is registered under
    the schema itself even when the schema has a static token. *)
Theorem token_of_the_four_combinations :
  registered_token
    (moduleFromSmartConfig Samples.Config Samples.input (initial Samples.empty_heap))
    = Ok (Samples.Config, Samples.Config)
  /\ registered_token
       (moduleFromSmartConfig Samples.ConfigWithStaticToken Samples.input
                              (initial Samples.empty_heap))
     = Ok (VStr "STATIC_TOKEN", VStr "STATIC_TOKEN")
  /\ registered_token
       (moduleFromSmartConfig
          (VObj [("smartConfig", Samples.ConfigWithStaticToken);
                 ("token", VStr "OVERRIDE_TOKEN")])
          Samples.input (initial Samples.empty_heap))
     = Ok (VStr "OVERRIDE_TOKEN", VStr "OVERRIDE_TOKEN")
  /\ registered_token
       (moduleFromSmartConfig
          (VObj [("smartConfig", Samples.ConfigWithStaticToken)])
          Samples.input (initial Samples.empty_heap))
     = Ok (Samples.ConfigWithStaticToken, Samples.ConfigWithStaticToken).
Proof. repeat split. Qed.

(** What the code does in general for an extended reference: the token is
    [reference.token || reference.smartConfig], whatever the statics of
    the schema. *)
Lemma token_of_extended_reference
  (reference : props) (id : nat) (name : string) (statics fields : props)
  (arg useValue : value) (s : state) :
  lookup "smartConfig" reference = Some (VClass id name statics fields) ->
  isAsyncParams (cells (st_heap s)) arg = Ok false ->
  instantiateExtendedSmartConfig (cells (st_heap s)) (VObj reference) arg = Ok useValue ->
  registered_token (moduleFromSmartConfig (VObj reference) arg s)
  = Ok (or_else (or_undefined (lookup "token" reference)) (VClass id name statics fields),
        or_else (or_undefined (lookup "token" reference)) (VClass id name statics fields)).
Proof.
  intros Hsc Hasync Hinst.
  unfold moduleFromSmartConfig. simpl.
  unfold bind, reading, createNamedClass, new_array, ret, isExtendedSmartConfig, with_heap.
  simpl. rewrite Hsc. simpl. rewrite Hasync. simpl. rewrite Hinst. simpl.
  now rewrite array_at_last, array_at_last2.
Qed.

(** C6.  For a schema and an asynchronous root input, the synthetic module
    has one provider, registered under the token and exported under it,
    with [imports] and [inject] copied from the input, and a [useFactory]
    that, once the input's own [useFactory] has resolved to [V], yields
    the instantiation of the schema against [V]; the same holds for an
    extended reference. *)
Theorem async_schema_provider
  (ufun : nat -> list value -> heap -> result (value * heap))
  (id : nat) (name : string) (statics fields reference : props)
  (arg imports inject useFactory : value) (s : state) :
  get (cells (st_heap s)) arg "useFactory" = Ok useFactory ->
  isFunction useFactory = true ->
  get (cells (st_heap s)) arg "imports" = Ok imports ->
  get (cells (st_heap s)) arg "inject" = Ok inject ->
  lookup "smartConfig" reference = Some (VClass id name statics fields) ->
  let schema := VClass id name statics fields in
  let token := or_else (or_undefined (lookup "token" statics)) schema in
  let inline_token := or_else (or_undefined (lookup "token" reference)) schema in
  let synthetic :=
    VObj [("module", VClass (next_id (st_heap s)) (name ++ "SmartConfigModule") [] []);
          ("providers", VArr (List.length (cells (st_heap s))));
          ("exports", VArr (S (List.length (cells (st_heap s)))))] in
  let after (provider exported : value) :=
    mkState (mkHeap (S (next_id (st_heap s)))
                    ((cells (st_heap s) ++ [[provider]]) ++ [[exported]]))
            (st_trace s) in
  moduleFromSmartConfig schema arg s
    = Ok (synthetic,
          after (VObj [("imports", imports); ("inject", inject);
                       ("useFactory", VConfigFactory schema useFactory);
                       ("provide", token)])
                token)
  /\ moduleFromSmartConfig (VObj reference) arg s
    = Ok (synthetic,
          after (VObj [("imports", imports); ("inject", inject);
                       ("useFactory", VExtendedConfigFactory (VObj reference) useFactory);
                       ("provide", inline_token)])
                inline_token)
  /\ (forall site args s1 V s2,
        call ufun UseFactorySite useFactory args s1 = Ok (V, s2) ->
        call ufun site (VConfigFactory schema useFactory) args s1
          = match instantiateSmartConfig (cells (st_heap s2)) schema V with
            | Ok instance => Ok (instance, s2)
            | Throw e => Throw e
            end
        /\ call ufun site (VExtendedConfigFactory (VObj reference) useFactory) args s1
          = match instantiateExtendedSmartConfig (cells (st_heap s2)) (VObj reference) V with
            | Ok instance => Ok (instance, s2)
            | Throw e => Throw e
            end)
  /\ (forall site args s1 e,
        call ufun UseFactorySite useFactory args s1 = Throw e ->
        call ufun site (VConfigFactory schema useFactory) args s1 = Throw e
        /\ call ufun site (VExtendedConfigFactory (VObj reference) useFactory) args s1
           = Throw e).
Proof.
  intros Hf Hfun Himports Hinject Href schema token inline_token synthetic after.
  assert (Hasync : isAsyncParams (cells (st_heap s)) arg = Ok true).
  { unfold isAsyncParams. rewrite Hf. simpl. unfold isFunction in Hfun. now rewrite Hfun. }
  split; [|split; [|split]].
  - unfold moduleFromSmartConfig. simpl.
    unfold bind, reading, createNamedClass, new_array, ret, with_heap. simpl.
    rewrite Hasync. simpl. rewrite Himports. simpl. rewrite Hinject. simpl.
    rewrite Hf. simpl. rewrite length_app, Nat.add_1_r. reflexivity.
  - unfold moduleFromSmartConfig. simpl.
    unfold bind, reading, createNamedClass, new_array, ret, with_heap, isExtendedSmartConfig.
    simpl. rewrite Href. simpl. rewrite Hasync. simpl.
    rewrite Himports. simpl. rewrite Hinject. simpl. rewrite Hf. simpl.
    rewrite length_app, Nat.add_1_r. reflexivity.
  - intros site args s1 V s2 Hcall. simpl. unfold bind, reading. rewrite Hcall. split.
    + destruct (instantiateSmartConfig _ _ _); reflexivity.
    + destruct (instantiateExtendedSmartConfig _ _ _); reflexivity.
  - intros site args s1 e Hcall. simpl. unfold bind. rewrite Hcall. split; reflexivity.
Qed.

Lemma async_schema_provider_witness :
  call Samples.functions UseFactorySite
       (VConfigFactory Samples.Config (VFun 7)) [] (initial Samples.async_heap)
  = Ok (VObj [("defaultProp", VStr "default"); ("requiredProp", VStr "test")],
        mkState Samples.async_heap [mkEvent UseFactorySite (VFun 7) []]).
Proof.
  exact (proj1 (proj1 (proj2 (proj2
           (async_schema_provider Samples.functions 1 "Config" []
              [("defaultProp", VStr "default")] [("smartConfig", Samples.Config)]
              Samples.async_input (VArr 0) (VArr 1) (VFun 7) (initial Samples.async_heap)
              eq_refl eq_refl eq_refl eq_refl eq_refl)))
           UseFactorySite [] (initial Samples.async_heap) Samples.input
           (mkState Samples.async_heap [mkEvent UseFactorySite (VFun 7) []]) eq_refl)).
Defined.

(** ** Inverting a completed run *)

Lemma bind_Ok {A B} (m : M A) (k : A -> M B) (s : state) (b : B) (s' : state) :
  bind m k s = Ok (b, s') ->
  exists a s1, m s = Ok (a, s1) /\ k a s1 = Ok (b, s').
Proof.
  unfold bind. destruct (m s) as [[a s1]|e]; [|discriminate].
  intro H. now exists a, s1.
Qed.

Lemma reading_Ok {A} (f : arrays -> result A) (s : state) (a : A) (s' : state) :
  reading f s = Ok (a, s') -> f (cells (st_heap s)) = Ok a /\ s' = s.
Proof.
  unfold reading. destruct (f (cells (st_heap s))); [|discriminate].
  intro H. inversion H. auto.
Qed.

Lemma ret_Ok {A} (x : A) (s : state) (a : A) (s' : state) :
  ret x s = Ok (a, s') -> a = x /\ s' = s.
Proof. unfold ret. intro H. inversion H. auto. Qed.

Lemma new_array_Ok (l : list value) (s : state) (v : value) (s' : state) :
  new_array l s = Ok (v, s') ->
  v = VArr (List.length (cells (st_heap s)))
  /\ s' = with_heap s (mkHeap (next_id (st_heap s)) (cells (st_heap s) ++ [l])).
Proof. unfold new_array. intro H. inversion H. auto. Qed.

Lemma elements_Ok (v : value) (s : state) (l : list value) (s' : state) :
  elements v s = Ok (l, s') ->
  exists loc, v = VArr loc /\ l = array_at (cells (st_heap s)) loc /\ s' = s.
Proof.
  destruct v; simpl; try discriminate.
  unfold reading. intro H. inversion H. eauto.
Qed.

Lemma mapM_Forall2 {A B} (f : A -> M B) (l : list A) (s : state) (r : list B) (s' : state) :
  mapM f l s = Ok (r, s') ->
  Forall2 (fun x y => exists s1 s2, f x s1 = Ok (y, s2)) l r.
Proof.
  revert s r s'. induction l as [|x l IH]; intros s r s' H; simpl in H.
  - apply ret_Ok in H. destruct H; subst. constructor.
  - apply bind_Ok in H. destruct H as (y & s1 & Hy & H).
    apply bind_Ok in H. destruct H as (ys & s2 & Hys & H).
    apply ret_Ok in H. destruct H; subst.
    constructor; [eauto | eapply IH; eauto].
Qed.

Lemma Forall2_same_length {A B} (P : A -> B -> Prop) (l : list A) (r : list B) :
  Forall2 P l r -> List.length r = List.length l.
Proof. induction 1; simpl; congruence. Qed.

(** ** Footprints

    A relation between states that is a preorder and admits allocation
    is kept by everything the synthesizers do, user calls apart. *)

Section Within.

Variable R : state -> state -> Prop.
Hypothesis R_refl : forall s, R s s.
Hypothesis R_trans : forall a b c, R a b -> R b c -> R a c.
Hypothesis R_alloc :
  forall s l, R s (with_heap s (mkHeap (next_id (st_heap s)) (cells (st_heap s) ++ [l]))).
Hypothesis R_fresh :
  forall s, R s (with_heap s (mkHeap (S (next_id (st_heap s))) (cells (st_heap s)))).

Variable ufun : nat -> list value -> heap -> result (value * heap).
Hypothesis R_call :
  forall site id args, site <> FactorySite -> within R (call_user ufun site id args).

Lemma within_ret {A} (a : A) : within R (ret a).
Proof. intros s x s' H. apply ret_Ok in H. destruct H; subst. apply R_refl. Qed.

Lemma within_throw {A} (e : error) : within R (@throw A e).
Proof. intros s x s' H. discriminate. Qed.

Lemma within_bind {A B} (m : M A) (k : A -> M B) :
  within R m -> (forall a, within R (k a)) -> within R (bind m k).
Proof.
  intros Hm Hk s b s' H. apply bind_Ok in H. destruct H as (a & s1 & H1 & H2).
  eapply R_trans; [eapply Hm | eapply Hk]; eauto.
Qed.

Lemma within_reading {A} (f : arrays -> result A) : within R (reading f).
Proof. intros s a s' H. apply reading_Ok in H. destruct H; subst. apply R_refl. Qed.

Lemma within_new_array (l : list value) : within R (new_array l).
Proof. intros s a s' H. apply new_array_Ok in H. destruct H; subst. apply R_alloc. Qed.

Lemma within_createNamedClass (name : string) : within R (createNamedClass name).
Proof. intros s a s' H. unfold createNamedClass in H. inversion H. apply R_fresh. Qed.

Lemma within_elements (v : value) : within R (elements v).
Proof.
  intros s a s' H. apply elements_Ok in H. destruct H as (loc & _ & _ & ->). apply R_refl.
Qed.

Lemma within_mapM {A B} (f : A -> M B) (l : list A) :
  (forall x, within R (f x)) -> within R (mapM f l).
Proof.
  intro Hf. induction l as [|x l IH]; simpl.
  - apply within_ret.
  - apply within_bind; [apply Hf|]. intro y.
    apply within_bind; [exact IH|]. intro ys. apply within_ret.
Qed.

Ltac within_step :=
  first [ apply within_ret | apply within_throw | apply within_reading
        | apply within_new_array | apply within_createNamedClass
        | apply within_elements | apply within_bind
        | match goal with
          | |- within _ (if ?b then _ else _) => destruct b
          | |- forall _, _ => intro
          end ].

Lemma within_call (site : call_site) (f : value) (args : list value) :
  site <> FactorySite -> within R (call ufun site f args).
Proof.
  assert (Hsite : UseFactorySite <> FactorySite) by discriminate.
  revert site args.
  induction f; intros site args Hneq; simpl; try apply within_throw.
  - now apply R_call.
  - apply within_bind; [now apply IHf2 | intro; apply within_reading].
  - apply within_bind; [now apply IHf2 | intro; apply within_reading].
  - apply within_bind; [now apply IHf2 | intro; apply within_reading].
Qed.

Lemma within_moduleFromSmartConfig (c arg : value) :
  within R (moduleFromSmartConfig c arg).
Proof. unfold moduleFromSmartConfig. repeat within_step. Qed.

Lemma within_moduleFromSmartImport (c arg : value) :
  within R (moduleFromSmartImport ufun c arg).
Proof.
  assert (Hsite : NestedModuleSite <> FactorySite) by discriminate.
  unfold moduleFromSmartImport.
  repeat first [ apply within_call; exact Hsite | within_step ].
Qed.

Lemma within_smartConfigModulesOf (definition arg : value) :
  within R (smartConfigModulesOf definition arg).
Proof.
  unfold smartConfigModulesOf.
  repeat first [ apply within_mapM; intro; apply within_moduleFromSmartConfig
               | within_step ].
Qed.

Lemma within_smartImportModulesOf (definition arg : value) :
  within R (smartImportModulesOf ufun definition arg).
Proof.
  unfold smartImportModulesOf.
  repeat first [ apply within_mapM; intro; apply within_moduleFromSmartImport
               | within_step ].
Qed.

Lemma within_inline_modules (arg : value) (inline : list value) :
  within R (mapM (fun c => moduleFromSmartConfig c arg) inline).
Proof. apply within_mapM. intro. apply within_moduleFromSmartConfig. Qed.

Lemma within_instantiateInline (arg : value) (inline : list value) :
  within R (mapM (instantiateInline arg) inline).
Proof. apply within_mapM. intro c. unfold instantiateInline. repeat within_step. Qed.

Lemma within_withModule (module definition : value) :
  within R (withModule module definition).
Proof. apply within_reading. Qed.

Lemma within_allImports (inlineArr : value) (a b : list value) :
  within R (allImports inlineArr a b).
Proof. unfold allImports. repeat within_step. Qed.

End Within.

(** *** The store only grows *)

Lemma grows_refl (s : state) : grows s s.
Proof. split; auto. Qed.

Lemma grows_trans (a b c : state) : grows a b -> grows b c -> grows a c.
Proof.
  intros [L1 H1] [L2 H2]. split; [lia|].
  intros loc Hloc. rewrite H2 by lia. now apply H1.
Qed.

Lemma grows_alloc (s : state) (l : list value) :
  grows s (with_heap s (mkHeap (next_id (st_heap s)) (cells (st_heap s) ++ [l]))).
Proof.
  split; simpl.
  - rewrite length_app. lia.
  - intros loc Hloc. now apply array_at_app.
Qed.

Lemma grows_fresh (s : state) :
  grows s (with_heap s (mkHeap (S (next_id (st_heap s))) (cells (st_heap s)))).
Proof. split; simpl; auto. Qed.

Lemma grows_call_user (ufun : nat -> list value -> heap -> result (value * heap))
      (site : call_site) (id : nat) (args : list value) :
  allocates_only ufun -> within grows (call_user ufun site id args).
Proof.
  intros Hu s v s' H. unfold call_user in H.
  destruct (ufun id args (st_heap s)) as [[v0 h']|e] eqn:E; [|discriminate].
  inversion H; subst. exact (Hu _ _ _ _ _ E).
Qed.

Lemma grows_array_at (s s' : state) (loc : nat) :
  grows s s' -> loc < List.length (cells (st_heap s)) ->
  array_at (cells (st_heap s')) loc = array_at (cells (st_heap s)) loc.
Proof. intros [_ H] Hloc. now apply H. Qed.

Lemma grows_length (s s' : state) (loc : nat) :
  grows s s' -> loc < List.length (cells (st_heap s)) ->
  loc < List.length (cells (st_heap s')).
Proof. intros [H _] Hloc. lia. Qed.

(** *** No call to the module factory *)

Lemma sfc_refl (s : state) : same_factory_calls s s.
Proof. reflexivity. Qed.

Lemma sfc_trans (a b c : state) :
  same_factory_calls a b -> same_factory_calls b c -> same_factory_calls a c.
Proof. unfold same_factory_calls. congruence. Qed.

Lemma sfc_alloc (s : state) (l : list value) :
  same_factory_calls s
    (with_heap s (mkHeap (next_id (st_heap s)) (cells (st_heap s) ++ [l]))).
Proof. reflexivity. Qed.

Lemma sfc_fresh (s : state) :
  same_factory_calls s (with_heap s (mkHeap (S (next_id (st_heap s))) (cells (st_heap s)))).
Proof. reflexivity. Qed.

Lemma sfc_call_user (ufun : nat -> list value -> heap -> result (value * heap))
      (site : call_site) (id : nat) (args : list value) :
  site <> FactorySite -> within same_factory_calls (call_user ufun site id args).
Proof.
  intros Hsite s v s' H. unfold call_user in H.
  destruct (ufun id args (st_heap s)) as [[v0 h']|e]; [|discriminate].
  inversion H; subst. unfold same_factory_calls, factory_calls. simpl.
  rewrite filter_app. simpl. unfold is_factory_call at 2. simpl.
  destruct site; [congruence| |]; now rewrite app_nil_r.
Qed.

Lemma factory_call_recorded (ufun : nat -> list value -> heap -> result (value * heap))
      (id : nat) (args : list value) (s : state) (v : value) (s' : state) :
  call ufun FactorySite (VFun id) args s = Ok (v, s') ->
  factory_calls (st_trace s')
  = factory_calls (st_trace s) ++ [mkEvent FactorySite (VFun id) args].
Proof.
  simpl. unfold call_user.
  destruct (ufun id args (st_heap s)) as [[v0 h']|e]; [|discriminate].
  intro H. inversion H; subst. unfold factory_calls. simpl.
  now rewrite filter_app.
Qed.

(** ** The orchestrator: calls to the module factory *)

Tactic Notation "invert_bind" hyp(H) "as" ident(a) ident(s) ident(H1) :=
  apply bind_Ok in H; destruct H as (a & s & H1 & H).

Lemma instantiateInline_Ok (arg : value) (inline : list value) (s : state)
      (instances : list value) (s' : state) :
  mapM (instantiateInline arg) inline s = Ok (instances, s') ->
  s' = s /\ Forall2 (fun c v => instantiated (cells (st_heap s)) arg c = Ok v) inline instances.
Proof.
  revert instances s'. induction inline as [|c l IH]; intros instances s' H; simpl in H.
  - apply ret_Ok in H. destruct H; subst. split; [reflexivity | constructor].
  - invert_bind H as v s1 Hv. invert_bind H as vs s2 Hvs.
    apply ret_Ok in H. destruct H; subst.
    assert (Hc : instantiated (cells (st_heap s)) arg c = Ok v /\ s1 = s).
    { unfold instantiateInline in Hv. unfold instantiated.
      destruct (isSmartConfig c); now apply reading_Ok in Hv. }
    destruct Hc as [Hc ->]. destruct (IH _ _ Hvs) as [-> Hl].
    split; [reflexivity | now constructor].
Qed.

Lemma tail_same_factory_calls
      (module again inlineArr : value) (sch nst : list value)
      (s : state) (m : value) (s' : state) :
  (target <- withModule module again ;;
   imports <- allImports inlineArr sch nst ;;
   appendImports target imports)%M s = Ok (m, s') ->
  same_factory_calls s s'.
Proof.
  intro H. invert_bind H as target s1 Htarget. invert_bind H as imports s2 Himports.
  unfold withModule in Htarget. apply reading_Ok in Htarget. destruct Htarget as [_ ->].
  assert (H1 : same_factory_calls s s2).
  { eapply within_allImports; eauto using sfc_refl, sfc_trans, sfc_alloc. }
  eapply sfc_trans; [exact H1|].
  unfold appendImports in H. invert_bind H as own s3 Hown.
  apply reading_Ok in Hown. destruct Hown as [_ ->].
  destruct (negb (truthy own)).
  - apply ret_Ok in H. destruct H as [_ ->]. apply sfc_refl.
  - invert_bind H as items s4 Hitems.
    apply elements_Ok in Hitems. destruct Hitems as (loc & _ & _ & ->).
    invert_bind H as u s5 Hpush. apply ret_Ok in H. destruct H as [_ ->].
    destruct own; simpl in Hpush; try discriminate.
    inversion Hpush; subst. reflexivity.
Qed.

(** A completed run of the closure over a module factory, step by step. *)
Lemma factory_runs
      (ufun : nat -> list value -> heap -> result (value * heap))
      (inline : list value) (id : nat) (this_ : option string) (arg : value)
      (s : state) (m : value) (s' : state) :
  smartModule ufun inline (VFun id) this_ arg s = Ok (m, s') ->
  exists module inl loc s1 rest first sb sch sc nst sd second se,
    Forall2 (made_by (fun c => moduleFromSmartConfig c arg)) inline inl
    /\ (array_at (cells (st_heap s1)) loc = inl /\ loc < List.length (cells (st_heap s1)))
    /\ ((isAsyncParams (cells (st_heap s1)) arg = Ok true /\ rest = [])
        \/ (isAsyncParams (cells (st_heap s1)) arg = Ok false
            /\ Forall2 (fun c v => instantiated (cells (st_heap s1)) arg c = Ok v)
                       inline rest))
    /\ call ufun FactorySite (VFun id) (VArr loc :: rest) s1 = Ok (first, sb)
    /\ smartConfigModulesOf first arg sb = Ok (sch, sc)
    /\ smartImportModulesOf ufun first arg sc = Ok (nst, sd)
    /\ call ufun FactorySite (VFun id) (VArr loc :: rest) sd = Ok (second, se)
    /\ (target <- withModule module second ;;
        imports <- allImports (VArr loc) sch nst ;;
        appendImports target imports)%M se = Ok (m, s')
    /\ factory_calls (st_trace s')
       = factory_calls (st_trace s)
           ++ [mkEvent FactorySite (VFun id) (VArr loc :: rest);
               mkEvent FactorySite (VFun id) (VArr loc :: rest)].
Proof.
  intro H. unfold smartModule in H.
  invert_bind H as module s0 Hmodule.
  invert_bind H as inl s1 Hinline.
  invert_bind H as inlineArr s2' Harr.
  change (isSmartModule (VFun id)) with false in H. cbv iota in H.
  invert_bind H as async s2'' Hasync.
  apply reading_Ok in Hasync. destruct Hasync as [Hasync ->].
  apply new_array_Ok in Harr. destruct Harr as [-> ->].
  assert (T0 : same_factory_calls s s1).
  { eapply sfc_trans.
    - eapply within_createNamedClass; eauto using sfc_refl, sfc_fresh.
    - eapply (within_inline_modules same_factory_calls);
        eauto using sfc_refl, sfc_trans, sfc_alloc, sfc_fresh. }
  set (s2 := with_heap s1 _) in *.
  assert (T1 : same_factory_calls s s2) by exact T0.
  assert (Hinl : array_at (cells (st_heap s2)) (List.length (cells (st_heap s1))) = inl
                 /\ List.length (cells (st_heap s1)) < List.length (cells (st_heap s2))).
  { split; [apply array_at_last|]. subst s2. simpl. rewrite length_app. simpl. lia. }
  destruct Hinl as [Hinl Hlt].
  assert (Hmade : Forall2 (made_by (fun c => moduleFromSmartConfig c arg)) inline inl)
    by (eapply mapM_Forall2; eauto).
  assert (Tail : forall args,
             (moduleDefinition <- call ufun FactorySite (VFun id) args ;;
              smartConfigModules <- smartConfigModulesOf moduleDefinition arg ;;
              smartImportModules <- smartImportModulesOf ufun moduleDefinition arg ;;
              again <- call ufun FactorySite (VFun id) args ;;
              target <- withModule module again ;;
              imports <- allImports (VArr (List.length (cells (st_heap s1))))
                                    smartConfigModules smartImportModules ;;
              appendImports target imports)%M s2 = Ok (m, s') ->
             exists first sb sch sc nst sd second se,
               call ufun FactorySite (VFun id) args s2 = Ok (first, sb)
               /\ smartConfigModulesOf first arg sb = Ok (sch, sc)
               /\ smartImportModulesOf ufun first arg sc = Ok (nst, sd)
               /\ call ufun FactorySite (VFun id) args sd = Ok (second, se)
               /\ (target <- withModule module second ;;
                   imports <- allImports (VArr (List.length (cells (st_heap s1)))) sch nst ;;
                   appendImports target imports)%M se = Ok (m, s')
               /\ factory_calls (st_trace s')
                  = factory_calls (st_trace s)
                      ++ [mkEvent FactorySite (VFun id) args;
                          mkEvent FactorySite (VFun id) args]).
  { intros args Hr.
    invert_bind Hr as first sb Hfirst.
    invert_bind Hr as sch sc Hsch.
    invert_bind Hr as nst sd Hnst.
    invert_bind Hr as second se Hsecond.
    exists first, sb, sch, sc, nst, sd, second, se.
    repeat split; auto.
    pose proof (factory_call_recorded _ _ _ _ _ _ Hfirst) as E1.
    pose proof (factory_call_recorded _ _ _ _ _ _ Hsecond) as E2.
    assert (Tb : same_factory_calls sb sc).
    { eapply within_smartConfigModulesOf;
        eauto using sfc_refl, sfc_trans, sfc_alloc, sfc_fresh. }
    assert (Tc : same_factory_calls sc sd).
    { eapply (within_smartImportModulesOf same_factory_calls);
        eauto using sfc_refl, sfc_trans, sfc_alloc, sfc_fresh, sfc_call_user. }
    apply tail_same_factory_calls in Hr.
    unfold same_factory_calls in *.
    rewrite Hr, E2, Tc, Tb, E1, T1, <- app_assoc. reflexivity. }
  destruct async.
  - destruct (Tail _ H) as (first & sb & sch & sc & nst & sd & second & se & K).
    exists module, inl, (List.length (cells (st_heap s1))), s2, [],
           first, sb, sch, sc, nst, sd, second, se.
    repeat split; auto; apply K.
  - invert_bind H as instances s3 Hinst.
    apply instantiateInline_Ok in Hinst. destruct Hinst as [-> Hinst].
    destruct (Tail _ H) as (first & sb & sch & sc & nst & sd & second & se & K).
    exists module, inl, (List.length (cells (st_heap s1))), s2, instances,
           first, sb, sch, sc, nst, sd, second, se.
    repeat split; auto; apply K.
Qed.

(** C10.  A completed invocation of the closure over a module factory
    calls the factory exactly twice, with the same arguments: the result
    of the first call is read for [smartConfigs] and [smartImports], the
    result of the second is the one merged into the module, and whatever
    the factory does to the store it does twice. *)
Theorem factory_called_twice
  (ufun : nat -> list value -> heap -> result (value * heap))
  (inline : list value) (id : nat) (this_ : option string) (arg : value)
  (s : state) (m : value) (s' : state) :
  smartModule ufun inline (VFun id) this_ arg s = Ok (m, s') ->
  exists args module inlineArr first sa sb sch sc nst sd second se,
    factory_calls (st_trace s')
      = factory_calls (st_trace s)
          ++ [mkEvent FactorySite (VFun id) args; mkEvent FactorySite (VFun id) args]
    /\ call ufun FactorySite (VFun id) args sa = Ok (first, sb)
    /\ smartConfigModulesOf first arg sb = Ok (sch, sc)
    /\ smartImportModulesOf ufun first arg sc = Ok (nst, sd)
    /\ call ufun FactorySite (VFun id) args sd = Ok (second, se)
    /\ (target <- withModule module second ;;
        imports <- allImports inlineArr sch nst ;;
        appendImports target imports)%M se = Ok (m, s').
Proof.
  intro H. apply factory_runs in H.
  destruct H as (module & inl & loc & s1 & rest & first & sb & sch & sc & nst & sd
                 & second & se & _ & _ & _ & H1 & H2 & H3 & H4 & H5 & H6).
  exists (VArr loc :: rest), module, (VArr loc), first, s1, sb, sch, sc, nst, sd, second, se.
  repeat split; assumption.
Qed.

(** C9.  The module factory is called with the array of inline synthetic
    modules alone when the root input is an asynchronous descriptor, and
    with that array followed by one instance per inline schema, each the
    instantiation of that schema against the root input, when it is not. *)
Theorem factory_arguments
  (ufun : nat -> list value -> heap -> result (value * heap))
  (inline : list value) (id : nat) (this_ : option string) (arg : value)
  (s : state) (m : value) (s' : state) :
  smartModule ufun inline (VFun id) this_ arg s = Ok (m, s') ->
  exists inlineModules loc s1 instances,
    Forall2 (made_by (fun c => moduleFromSmartConfig c arg)) inline inlineModules
    /\ array_at (cells (st_heap s1)) loc = inlineModules
    /\ ((isAsyncParams (cells (st_heap s1)) arg = Ok true /\ instances = [])
        \/ (isAsyncParams (cells (st_heap s1)) arg = Ok false
            /\ Forall2 (fun c v => instantiated (cells (st_heap s1)) arg c = Ok v)
                       inline instances))
    /\ (exists first sb, call ufun FactorySite (VFun id) (VArr loc :: instances) s1
                         = Ok (first, sb))
    /\ factory_calls (st_trace s')
       = factory_calls (st_trace s)
           ++ [mkEvent FactorySite (VFun id) (VArr loc :: instances);
               mkEvent FactorySite (VFun id) (VArr loc :: instances)].
Proof.
  intro H. apply factory_runs in H.
  destruct H as (module & inl & loc & s1 & rest & first & sb & sch & sc & nst & sd
                 & second & se & H1 & [H2 _] & H3 & H4 & _ & _ & _ & _ & H9).
  exists inl, loc, s1, rest. repeat split; eauto.
Qed.

Lemma factory_called_twice_witness :
  exists args module inlineArr first sa sb sch sc nst sd second se,
    factory_calls (st_trace (snd (Samples.completed Samples.factory_run)))
      = factory_calls (st_trace (initial Samples.empty_heap))
          ++ [mkEvent FactorySite (VFun 8) args; mkEvent FactorySite (VFun 8) args]
    /\ call Samples.functions FactorySite (VFun 8) args sa = Ok (first, sb)
    /\ smartConfigModulesOf first Samples.input sb = Ok (sch, sc)
    /\ smartImportModulesOf Samples.functions first Samples.input sc = Ok (nst, sd)
    /\ call Samples.functions FactorySite (VFun 8) args sd = Ok (second, se)
    /\ (target <- withModule module second ;;
        imports <- allImports inlineArr sch nst ;;
        appendImports target imports)%M se
       = Ok (Samples.completed Samples.factory_run).
Proof.
  apply (factory_called_twice Samples.functions [Samples.Config] 8 None Samples.input
           (initial Samples.empty_heap)
           (fst (Samples.completed Samples.factory_run))
           (snd (Samples.completed Samples.factory_run))).
  vm_compute. reflexivity.
Defined.

Lemma factory_arguments_witness :
  exists inlineModules loc s1 instances,
    Forall2 (made_by (fun c => moduleFromSmartConfig c Samples.input))
            [Samples.Config] inlineModules
    /\ array_at (cells (st_heap s1)) loc = inlineModules
    /\ ((isAsyncParams (cells (st_heap s1)) Samples.input = Ok true /\ instances = [])
        \/ (isAsyncParams (cells (st_heap s1)) Samples.input = Ok false
            /\ Forall2 (fun c v => instantiated (cells (st_heap s1)) Samples.input c = Ok v)
                       [Samples.Config] instances))
    /\ (exists first sb,
           call Samples.functions FactorySite (VFun 8) (VArr loc :: instances) s1
           = Ok (first, sb))
    /\ factory_calls (st_trace (snd (Samples.completed Samples.factory_run)))
       = factory_calls (st_trace (initial Samples.empty_heap))
           ++ [mkEvent FactorySite (VFun 8) (VArr loc :: instances);
               mkEvent FactorySite (VFun 8) (VArr loc :: instances)].
Proof.
  apply (factory_arguments Samples.functions [Samples.Config] 8 None Samples.input
           (initial Samples.empty_heap)
           (fst (Samples.completed Samples.factory_run))
           (snd (Samples.completed Samples.factory_run))).
  vm_compute. reflexivity.
Defined.

(** ** The orchestrator: the order of the imports *)

Lemma array_at_update (h : arrays) (loc : nat) (x : list value) :
  loc < List.length h -> array_at (update h loc x) loc = x.
Proof.
  unfold array_at. revert loc. induction h as [|y r IH]; intros loc H; simpl in H; [lia|].
  destruct loc as [|j]; simpl; [reflexivity|]. apply IH. lia.
Qed.

Lemma declared_array (h : arrays) (definition : props) (k : string) (loc : nat) :
  or_undefined (lookup k definition) = VArr loc ->
  declared h definition k = array_at h loc.
Proof.
  unfold declared. destruct (lookup k definition) as [v|]; simpl; [|discriminate].
  now intros ->.
Qed.

Lemma declared_falsy (h : arrays) (definition : props) (k : string) :
  truthy (or_undefined (lookup k definition)) = false -> declared h definition k = [].
Proof.
  unfold declared. destruct (lookup k definition) as [[]|]; simpl; try reflexivity.
  discriminate.
Qed.

Lemma declared_grows (s s' : state) (definition : props) (k : string) :
  arrays_allocated (cells (st_heap s)) definition -> grows s s' ->
  declared (cells (st_heap s')) definition k = declared (cells (st_heap s)) definition k.
Proof.
  intros Hall Hg. unfold declared.
  destruct (lookup k definition) as [[]|] eqn:E; try reflexivity.
  apply grows_array_at; [exact Hg | now apply (Hall k)].
Qed.

Lemma smartConfigModulesOf_Ok (definition : props) (arg : value)
      (s : state) (sch : list value) (s' : state) :
  smartConfigModulesOf (VObj definition) arg s = Ok (sch, s') ->
  Forall2 (made_by (fun c => moduleFromSmartConfig c arg))
          (declared (cells (st_heap s)) definition "smartConfigs") sch.
Proof.
  unfold smartConfigModulesOf. intro H.
  invert_bind H as smartConfigs s1 Hget.
  apply reading_Ok in Hget. destruct Hget as [Hget ->]. simpl in Hget. inversion Hget; subst.
  destruct (truthy (or_undefined (lookup "smartConfigs" definition))) eqn:T.
  - invert_bind H as cs s2 Hcs.
    apply elements_Ok in Hcs. destruct Hcs as (loc & Hloc & -> & ->).
    rewrite (declared_array _ _ _ _ Hloc). eapply mapM_Forall2; eauto.
  - apply ret_Ok in H. destruct H as [-> _].
    rewrite declared_falsy by exact T. constructor.
Qed.

Lemma smartImportModulesOf_Ok
      (ufun : nat -> list value -> heap -> result (value * heap))
      (definition : props) (arg : value) (s : state) (nst : list value) (s' : state) :
  smartImportModulesOf ufun (VObj definition) arg s = Ok (nst, s') ->
  Forall2 (made_by (fun c => moduleFromSmartImport ufun c arg))
          (declared (cells (st_heap s)) definition "smartImports") nst.
Proof.
  unfold smartImportModulesOf. intro H.
  invert_bind H as smartImports s1 Hget.
  apply reading_Ok in Hget. destruct Hget as [Hget ->]. simpl in Hget. inversion Hget; subst.
  destruct (truthy (or_undefined (lookup "smartImports" definition))) eqn:T.
  - invert_bind H as cs s2 Hcs.
    apply elements_Ok in Hcs. destruct Hcs as (loc & Hloc & -> & ->).
    rewrite (declared_array _ _ _ _ Hloc). eapply mapM_Forall2; eauto.
  - apply ret_Ok in H. destruct H as [-> _].
    rewrite declared_falsy by exact T. constructor.
Qed.

Lemma lookup_with_module (module : value) (definition : props) (k : string) :
  wf_props definition -> k <> "module" ->
  lookup k (assign [("module", module)] definition) = lookup k definition.
Proof.
  intros Hwf Hk. rewrite lookup_assign, (lookup_rev_wf k definition Hwf).
  destruct (lookup k definition); [reflexivity|]. simpl.
  apply String.eqb_neq in Hk. now rewrite Hk.
Qed.

(** What [appendImports] leaves in the [imports] of the module it returns:
    the elements the target's own array had, then the new ones. *)
Lemma appendImports_Ok (target : props) (loc : nat) (s : state) (m : value) (s' : state) :
  (forall own, lookup "imports" target = Some (VArr own) ->
               own < List.length (cells (st_heap s))) ->
  appendImports (VObj target) (VArr loc) s = Ok (m, s') ->
  exists result,
    get (cells (st_heap s')) m "imports" = Ok (VArr result)
    /\ array_at (cells (st_heap s')) result
       = declared (cells (st_heap s)) target "imports" ++ array_at (cells (st_heap s)) loc
    /\ (forall own, lookup "imports" target = Some (VArr own) -> result = own).
Proof.
  intros Hown H. unfold appendImports in H.
  invert_bind H as own s1 Hget.
  apply reading_Ok in Hget. destruct Hget as [Hget ->]. simpl in Hget. inversion Hget; subst.
  destruct (truthy (or_undefined (lookup "imports" target))) eqn:T; cbn [negb] in H.
  - invert_bind H as items s2 Hitems.
    apply elements_Ok in Hitems. destruct Hitems as (l & Hl & -> & ->).
    inversion Hl; subst l.
    invert_bind H as u s3 Hpush. apply ret_Ok in H. destruct H as [-> ->].
    destruct (or_undefined (lookup "imports" target)) eqn:E; simpl in Hpush;
      try discriminate.
    inversion Hpush; subst. exists loc0. simpl. rewrite E.
    assert (Hsome : lookup "imports" target = Some (VArr loc0)).
    { destruct (lookup "imports" target); simpl in E; [now subst | discriminate]. }
    split; [reflexivity | split].
    + rewrite array_at_update by now apply Hown.
      now rewrite (declared_array _ _ _ _ E).
    + intros own Hsome'. congruence.
  - apply ret_Ok in H. destruct H as [-> ->].
    exists loc. simpl. rewrite lookup_set_prop. simpl.
    split; [reflexivity | split].
    + now rewrite declared_falsy.
    + intros own Hsome. rewrite Hsome in T. discriminate.
Qed.

Lemma declared_with_module (h : arrays) (module : value) (definition : props) :
  wf_props definition ->
  declared h (assign [("module", module)] definition) "imports"
  = declared h definition "imports".
Proof.
  intro Hwf. unfold declared. rewrite lookup_with_module; auto. discriminate.
Qed.

(** A completed run of the closure over a static descriptor. *)
Lemma static_runs
  (ufun : nat -> list value -> heap -> result (value * heap))
  (inline : list value) (definition : props) (this_ : option string) (arg : value)
  (s : state) (m : value) (s' : state) :
  allocates_only ufun ->
  wf_props definition ->
  arrays_allocated (cells (st_heap s)) definition ->
  smartModule ufun inline (VObj definition) this_ arg s = Ok (m, s') ->
  exists loc inlineModules schemaModules nestedModules,
    get (cells (st_heap s')) m "imports" = Ok (VArr loc)
    /\ array_at (cells (st_heap s')) loc
       = declared (cells (st_heap s)) definition "imports"
           ++ inlineModules ++ schemaModules ++ nestedModules
    /\ Forall2 (made_by (fun c => moduleFromSmartConfig c arg)) inline inlineModules
    /\ Forall2 (made_by (fun c => moduleFromSmartConfig c arg))
               (declared (cells (st_heap s)) definition "smartConfigs") schemaModules
    /\ Forall2 (made_by (fun c => moduleFromSmartImport ufun c arg))
               (declared (cells (st_heap s)) definition "smartImports") nestedModules
    /\ (forall own, lookup "imports" definition = Some (VArr own) -> loc = own).
Proof.
  intros Hufun Hwf Hall H. unfold smartModule in H.
  invert_bind H as module s0 Hmodule.
  invert_bind H as inl s1 Hinline.
  invert_bind H as inlineArr s2 Harr.
  change (isSmartModule (VObj definition)) with true in H. cbv iota zeta in H.
  invert_bind H as sch s3 Hsch.
  invert_bind H as nst s4 Hnst.
  invert_bind H as target s5 Htarget.
  invert_bind H as imports s6 Himports.
  (* the store only grew on the way *)
  assert (G0 : grows s s0).
  { eapply within_createNamedClass; eauto using grows_refl, grows_fresh. }
  assert (G1 : grows s0 s1).
  { eapply (within_inline_modules grows);
      eauto using grows_refl, grows_trans, grows_alloc, grows_fresh. }
  assert (G2 : grows s1 s2).
  { eapply within_new_array; eauto using grows_alloc. }
  assert (G3 : grows s2 s3).
  { eapply within_smartConfigModulesOf;
      eauto using grows_refl, grows_trans, grows_alloc, grows_fresh. }
  assert (G4 : grows s3 s4).
  { eapply (within_smartImportModulesOf grows);
      eauto using grows_refl, grows_trans, grows_alloc, grows_fresh.
    intros site id args _. now apply grows_call_user. }
  assert (Gs2 : grows s s2) by eauto using grows_trans.
  assert (Gs3 : grows s s3) by eauto using grows_trans.
  assert (Gs4 : grows s s4) by eauto using grows_trans.
  (* the array of inline modules *)
  apply new_array_Ok in Harr. destruct Harr as [-> Hs2].
  assert (Hinl : array_at (cells (st_heap s4)) (List.length (cells (st_heap s1))) = inl).
  { rewrite (grows_array_at s2 s4) by
      (eauto using grows_trans; subst s2; simpl; rewrite length_app; simpl; lia).
    subst s2. simpl. apply array_at_last. }
  (* the object and the new array *)
  unfold withModule in Htarget. apply reading_Ok in Htarget. destruct Htarget as [Ht ->].
  inversion Ht; subst target. clear Ht. simpl spread_props in H.
  unfold allImports in Himports.
  invert_bind Himports as items s7 Hitems.
  apply elements_Ok in Hitems. destruct Hitems as (li & Hli & -> & ->).
  inversion Hli; subst li. rewrite Hinl in Himports.
  apply new_array_Ok in Himports. destruct Himports as [-> ->].
  assert (G6 : grows s4 (with_heap s4 (mkHeap (next_id (st_heap s4))
                                         (cells (st_heap s4) ++ [inl ++ sch ++ nst]))))
    by apply grows_alloc.
  apply appendImports_Ok in H.
  - destruct H as (result & Hget & Hcontent & Hsame).
    exists result, inl, sch, nst.
    assert (F1 : Forall2 (made_by (fun c => moduleFromSmartConfig c arg)) inline inl)
      by (eapply mapM_Forall2; eauto).
    assert (F2 : Forall2 (made_by (fun c => moduleFromSmartConfig c arg))
                         (declared (cells (st_heap s)) definition "smartConfigs") sch).
    { rewrite <- (declared_grows s s2) by assumption. now apply smartConfigModulesOf_Ok in Hsch. }
    assert (F3 : Forall2 (made_by (fun c => moduleFromSmartImport ufun c arg))
                         (declared (cells (st_heap s)) definition "smartImports") nst).
    { rewrite <- (declared_grows s s3) by assumption. now apply smartImportModulesOf_Ok in Hnst. }
    repeat split; try assumption.
    + rewrite Hcontent. simpl. rewrite array_at_last.
      rewrite declared_with_module by exact Hwf.
      change (cells (st_heap s4) ++ [inl ++ sch ++ nst])
        with (cells (st_heap (with_heap s4 (mkHeap (next_id (st_heap s4))
                                              (cells (st_heap s4) ++ [inl ++ sch ++ nst]))))).
      rewrite (declared_grows s _) by eauto using grows_trans. reflexivity.
    + intros own Hown. apply Hsame. rewrite lookup_with_module; auto. discriminate.
  - intros own Hown. rewrite lookup_with_module in Hown by (auto; discriminate).
    eapply grows_length; [eapply grows_trans; [exact Gs4 | exact G6]|].
    now apply (Hall "imports").
Qed.

Lemma call_factory_Ok
      (ufun : nat -> list value -> heap -> result (value * heap))
      (id : nat) (args : list value) (s : state) (v : value) (s' : state) :
  call ufun FactorySite (VFun id) args s = Ok (v, s') ->
  ufun id args (st_heap s) = Ok (v, st_heap s').
Proof.
  simpl. unfold call_user.
  destruct (ufun id args (st_heap s)) as [[v0 h']|e]; [|discriminate].
  intro H. now inversion H.
Qed.

(** A completed run of the closure over a module factory: the imports. *)
Lemma factory_run_imports
  (ufun : nat -> list value -> heap -> result (value * heap))
  (inline : list value) (id : nat) (this_ : option string) (arg : value)
  (s : state) (m : value) (s' : state) :
  allocates_only ufun ->
  returns_descriptors ufun id ->
  smartModule ufun inline (VFun id) this_ arg s = Ok (m, s') ->
  exists loc inlineModules schemaModules nestedModules first after_first second after_second,
    get (cells (st_heap s')) m "imports" = Ok (VArr loc)
    /\ array_at (cells (st_heap s')) loc
       = declared (cells (st_heap after_second)) second "imports"
           ++ inlineModules ++ schemaModules ++ nestedModules
    /\ Forall2 (made_by (fun c => moduleFromSmartConfig c arg)) inline inlineModules
    /\ Forall2 (made_by (fun c => moduleFromSmartConfig c arg))
               (declared (cells (st_heap after_first)) first "smartConfigs") schemaModules
    /\ Forall2 (made_by (fun c => moduleFromSmartImport ufun c arg))
               (declared (cells (st_heap after_first)) first "smartImports") nestedModules
    /\ (exists args before,
           call ufun FactorySite (VFun id) args before = Ok (VObj first, after_first))
    /\ (exists args before,
           call ufun FactorySite (VFun id) args before = Ok (VObj second, after_second)).
Proof.
  intros Hufun Hret H. apply factory_runs in H.
  destruct H as (module & inl & loc & s1 & rest & first & sb & sch & sc & nst & sd
                 & second & se & Hmade & [Hinl Hlt] & _ & Hfirst & Hsch & Hnst
                 & Hsecond & Htail & _).
  destruct (Hret _ _ _ _ (call_factory_Ok _ _ _ _ _ _ Hfirst)) as (d1 & -> & Hwf1 & Hall1).
  destruct (Hret _ _ _ _ (call_factory_Ok _ _ _ _ _ _ Hsecond)) as (d2 & -> & Hwf2 & Hall2).
  assert (Ga : grows s1 sb) by (eapply (grows_call_user ufun); eauto).
  assert (Gb : grows sb sc).
  { eapply within_smartConfigModulesOf;
      eauto using grows_refl, grows_trans, grows_alloc, grows_fresh. }
  assert (Gc : grows sc sd).
  { eapply (within_smartImportModulesOf grows);
      eauto using grows_refl, grows_trans, grows_alloc, grows_fresh.
    intros site f args _. now apply grows_call_user. }
  assert (Gd : grows sd se) by (eapply (grows_call_user ufun); eauto).
  assert (G : grows s1 se) by eauto using grows_trans.
  invert_bind Htail as target s5 Htarget.
  invert_bind Htail as imports s6 Himports.
  unfold withModule in Htarget. apply reading_Ok in Htarget. destruct Htarget as [Ht ->].
  inversion Ht; subst target. clear Ht. simpl spread_props in Htail.
  unfold allImports in Himports.
  invert_bind Himports as items s7 Hitems.
  apply elements_Ok in Hitems. destruct Hitems as (li & Hli & -> & ->).
  inversion Hli; subst li.
  rewrite (grows_array_at s1 se loc G Hlt), Hinl in Himports.
  apply new_array_Ok in Himports. destruct Himports as [-> ->].
  assert (G6 : grows se (with_heap se (mkHeap (next_id (st_heap se))
                                         (cells (st_heap se) ++ [inl ++ sch ++ nst]))))
    by apply grows_alloc.
  apply appendImports_Ok in Htail.
  - destruct Htail as (result & Hget & Hcontent & _).
    exists result, inl, sch, nst, d1, sb, d2, se.
    repeat split; eauto.
    + rewrite Hcontent. simpl. rewrite array_at_last.
      rewrite declared_with_module by exact Hwf2.
      change (cells (st_heap se) ++ [inl ++ sch ++ nst])
        with (cells (st_heap (with_heap se (mkHeap (next_id (st_heap se))
                                              (cells (st_heap se) ++ [inl ++ sch ++ nst]))))).
      now rewrite (declared_grows se _) by assumption.
    + now apply smartConfigModulesOf_Ok in Hsch.
    + rewrite <- (declared_grows sb sc) by assumption.
      now apply smartImportModulesOf_Ok in Hnst.
  - intros own Hown. rewrite lookup_with_module in Hown by (auto; discriminate).
    eapply grows_length; [exact G6|]. now apply (Hall2 "imports").
Qed.

Lemma segments {A} (d a b c : list A) (i : nat) :
  (i < List.length a ->
   nth_error (d ++ a ++ b ++ c) (List.length d + i) = nth_error a i)
  /\ (i < List.length b ->
      nth_error (d ++ a ++ b ++ c) (List.length d + List.length a + i) = nth_error b i)
  /\ (i < List.length c ->
      nth_error (d ++ a ++ b ++ c) (List.length d + List.length a + List.length b + i)
      = nth_error c i).
Proof.
  repeat split; intro Hi.
  - rewrite nth_error_app2 by lia. replace (_ - _) with i by lia.
    now rewrite nth_error_app1.
  - rewrite nth_error_app2 by lia. rewrite nth_error_app2 by lia.
    replace (_ - _) with i by lia. now rewrite nth_error_app1.
  - rewrite nth_error_app2 by lia. rewrite nth_error_app2 by lia.
    rewrite nth_error_app2 by lia. f_equal. lia.
Qed.

(** Where the user functions only add arrays to the store, the [imports]
    array of the assembled module holds what the descriptor's own
    [imports] array held when the invocation started, then one synthetic
    module per inline schema, then one per [smartConfigs] entry, then one
    per [smartImports] entry, each list in its order; for a static
    descriptor, and for the descriptor that a module factory returns. *)
Lemma imports_in_declaration_order
  (ufun : nat -> list value -> heap -> result (value * heap))
  (inline : list value) (this_ : option string) (arg : value)
  (s : state) (m : value) (s' : state) :
  allocates_only ufun ->
  (forall definition,
      wf_props definition ->
      arrays_allocated (cells (st_heap s)) definition ->
      smartModule ufun inline (VObj definition) this_ arg s = Ok (m, s') ->
      exists loc inlineModules schemaModules nestedModules,
        get (cells (st_heap s')) m "imports" = Ok (VArr loc)
        /\ array_at (cells (st_heap s')) loc
           = declared (cells (st_heap s)) definition "imports"
               ++ inlineModules ++ schemaModules ++ nestedModules
        /\ Forall2 (made_by (fun c => moduleFromSmartConfig c arg)) inline inlineModules
        /\ Forall2 (made_by (fun c => moduleFromSmartConfig c arg))
                   (declared (cells (st_heap s)) definition "smartConfigs") schemaModules
        /\ Forall2 (made_by (fun c => moduleFromSmartImport ufun c arg))
                   (declared (cells (st_heap s)) definition "smartImports") nestedModules
        /\ (forall i,
              let D := List.length (declared (cells (st_heap s)) definition "imports") in
              let N := List.length inline in
              let M := List.length (declared (cells (st_heap s)) definition "smartConfigs") in
              let K := List.length (declared (cells (st_heap s)) definition "smartImports") in
              List.length (array_at (cells (st_heap s')) loc) = D + N + M + K
              /\ (i < N -> nth_error (array_at (cells (st_heap s')) loc) (D + i)
                           = nth_error inlineModules i)
              /\ (i < M -> nth_error (array_at (cells (st_heap s')) loc) (D + N + i)
                           = nth_error schemaModules i)
              /\ (i < K -> nth_error (array_at (cells (st_heap s')) loc) (D + N + M + i)
                           = nth_error nestedModules i)))
  /\ (forall id,
        returns_descriptors ufun id ->
        smartModule ufun inline (VFun id) this_ arg s = Ok (m, s') ->
        exists loc inlineModules schemaModules nestedModules
               first after_first second after_second,
          get (cells (st_heap s')) m "imports" = Ok (VArr loc)
          /\ array_at (cells (st_heap s')) loc
             = declared (cells (st_heap after_second)) second "imports"
                 ++ inlineModules ++ schemaModules ++ nestedModules
          /\ Forall2 (made_by (fun c => moduleFromSmartConfig c arg)) inline inlineModules
          /\ Forall2 (made_by (fun c => moduleFromSmartConfig c arg))
                     (declared (cells (st_heap after_first)) first "smartConfigs")
                     schemaModules
          /\ Forall2 (made_by (fun c => moduleFromSmartImport ufun c arg))
                     (declared (cells (st_heap after_first)) first "smartImports")
                     nestedModules
          /\ (exists args before,
                 call ufun FactorySite (VFun id) args before = Ok (VObj first, after_first))
          /\ (exists args before,
                 call ufun FactorySite (VFun id) args before
                 = Ok (VObj second, after_second))).
Proof.
  intro Hufun. split.
  - intros definition Hwf Hall H.
    destruct (static_runs _ _ _ _ _ _ _ _ Hufun Hwf Hall H)
      as (loc & inl & sch & nst & H1 & H2 & H3 & H4 & H5 & _).
    exists loc, inl, sch, nst.
    pose proof (Forall2_same_length _ _ _ H3) as L3.
    pose proof (Forall2_same_length _ _ _ H4) as L4.
    pose proof (Forall2_same_length _ _ _ H5) as L5.
    do 5 (split; [assumption|]).
    intros i D N M K. subst D N M K. rewrite H2, <- L3, <- L4, <- L5.
    split; [rewrite !length_app; lia|].
    repeat split; intro Hi; apply segments; exact Hi.
  - intros id Hret H. now apply (factory_run_imports ufun inline id this_ arg s m s').
Qed.

Lemma sample_functions_allocate_only : allocates_only Samples.functions.
Proof.
  intros id args h v h' H. unfold Samples.functions in H.
  do 10 (destruct id as [|id]; [try discriminate; inversion H; subst; split; auto|]).
  discriminate.
Qed.

Lemma sample_definition_allocated :
  arrays_allocated (cells Samples.static_heap) Samples.static_definition.
Proof.
  intros k loc H. unfold Samples.static_definition in H. simpl in H.
  repeat match type of H with
         | (if ?b then _ else _) = _ => destruct b; [inversion H; subst; simpl; lia|]
         end.
  discriminate.
Qed.

Lemma imports_in_declaration_order_witness :
  exists loc inlineModules schemaModules nestedModules,
    get (cells (st_heap (snd (Samples.completed
                                (Samples.static_run (initial Samples.static_heap))))))
        (fst (Samples.completed (Samples.static_run (initial Samples.static_heap))))
        "imports" = Ok (VArr loc)
    /\ array_at (cells (st_heap (snd (Samples.completed
                                        (Samples.static_run (initial Samples.static_heap))))))
                loc
       = [VClass 5 "DbModule" [] []] ++ inlineModules ++ schemaModules ++ nestedModules
    /\ Forall2 (made_by (fun c => moduleFromSmartConfig c Samples.input)) [] inlineModules
    /\ Forall2 (made_by (fun c => moduleFromSmartConfig c Samples.input))
               [Samples.Config] schemaModules
    /\ Forall2 (made_by (fun c => moduleFromSmartImport Samples.functions c Samples.input))
               [VFun 9] nestedModules.
Proof.
  assert (Hwf : wf_props Samples.static_definition) by solve_wf.
  destruct (proj1 (imports_in_declaration_order Samples.functions [] None Samples.input
                     (initial Samples.static_heap)
                     (fst (Samples.completed (Samples.static_run (initial Samples.static_heap))))
                     (snd (Samples.completed (Samples.static_run (initial Samples.static_heap))))
                     sample_functions_allocate_only)
                  Samples.static_definition Hwf sample_definition_allocated eq_refl)
    as (loc & inl & sch & nst & H1 & H2 & H3 & H4 & H5 & _).
  exists loc, inl, sch, nst. repeat split; assumption.
Defined.

(** C5 at the second invocation of the closure over a static descriptor
    that declares one import, one schema and one nested module.  The
    first invocation returns the three entries in the order of the
    claim.  The second returns the descriptor's own array again, now of
    five entries: indices 1 and 2, where the claim has the schema and
    nested modules of this invocation, hold those of the first, whose
    class is older than anything the second invocation creates, and the
    modules of this invocation sit at 3 and 4. *)
Theorem declared_imports_displace_the_order :
  let first := Samples.static_run (initial Samples.static_heap) in
  let second := Samples.static_run (snd (Samples.completed first)) in
  let schema_module (identity providers exports : nat) :=
    VObj [("module", VClass identity "ConfigSmartConfigModule" [] []);
          ("providers", VArr providers); ("exports", VArr exports)] in
  let nested := VObj [("module", VClass 4 "Nested" [] [])] in
  declared (cells Samples.static_heap) Samples.static_definition "imports"
    = [VClass 5 "DbModule" [] []]
  /\ listed "imports" first
     = Ok [VClass 5 "DbModule" [] []; schema_module 11 4 5; nested]
  /\ next_id (st_heap (snd (Samples.completed first))) = 12
  /\ listed "imports" second
     = Ok [VClass 5 "DbModule" [] []; schema_module 11 4 5; nested;
           schema_module 13 8 9; nested].
Proof. repeat split. Qed.

(** ** The orchestrator: what an invocation changes *)

(** A static descriptor that declares an [imports] array has that very
    array extended by each completed invocation. *)
Lemma declared_imports_grow
  (ufun : nat -> list value -> heap -> result (value * heap))
  (inline : list value) (definition : props) (this_ : option string) (arg : value)
  (own : nat) (s : state) (m : value) (s' : state) :
  allocates_only ufun ->
  wf_props definition ->
  arrays_allocated (cells (st_heap s)) definition ->
  lookup "imports" definition = Some (VArr own) ->
  smartModule ufun inline (VObj definition) this_ arg s = Ok (m, s') ->
  exists added,
    declared (cells (st_heap s')) definition "imports"
    = declared (cells (st_heap s)) definition "imports" ++ added
    /\ List.length added
       = List.length inline
         + List.length (declared (cells (st_heap s)) definition "smartConfigs")
         + List.length (declared (cells (st_heap s)) definition "smartImports").
Proof.
  intros Hufun Hwf Hall Hown H.
  destruct (static_runs _ _ _ _ _ _ _ _ Hufun Hwf Hall H)
    as (loc & inl & sch & nst & _ & H2 & H3 & H4 & H5 & H6).
  exists (inl ++ sch ++ nst). split.
  - rewrite <- H2, (H6 own Hown). unfold declared. now rewrite Hown.
  - rewrite !length_app.
    rewrite (Forall2_same_length _ _ _ H3), (Forall2_same_length _ _ _ H4),
            (Forall2_same_length _ _ _ H5). lia.
Qed.

(** C2 at a static descriptor that declares its own imports, invoked twice
    with the same input: the descriptor's array has one element before,
    three after the first invocation and five after the second, and it is
    that array which both returned modules hold as their [imports]. *)
Theorem closure_grows_the_declared_imports :
  exists m1 s1 m2 s2,
    Samples.static_run (initial Samples.static_heap) = Ok (m1, s1)
    /\ Samples.static_run s1 = Ok (m2, s2)
    /\ get (cells (st_heap s1)) m1 "imports" = Ok (VArr 0)
    /\ get (cells (st_heap s2)) m2 "imports" = Ok (VArr 0)
    /\ lookup "imports" Samples.static_definition = Some (VArr 0)
    /\ List.length (array_at (cells Samples.static_heap) 0) = 1
    /\ List.length (array_at (cells (st_heap s1)) 0) = 3
    /\ List.length (array_at (cells (st_heap s2)) 0) = 5.
Proof.
  exists (fst (Samples.completed (Samples.static_run (initial Samples.static_heap)))),
         (snd (Samples.completed (Samples.static_run (initial Samples.static_heap)))),
         (fst (Samples.completed
                 (Samples.static_run
                    (snd (Samples.completed
                            (Samples.static_run (initial Samples.static_heap))))))),
         (snd (Samples.completed
                 (Samples.static_run
                    (snd (Samples.completed
                            (Samples.static_run (initial Samples.static_heap))))))).
  repeat split.
Qed.

(** ** The scenarios of the package's tests, run on the model *)

Example scenario_single_schema :
  module_name (moduleFromSmartConfig Samples.Config Samples.input
                                     (initial Samples.empty_heap))
    = Ok (VStr "ConfigSmartConfigModule")
  /\ provided_value (moduleFromSmartConfig Samples.Config Samples.input
                                           (initial Samples.empty_heap))
    = Ok (VObj [("defaultProp", VStr "default"); ("requiredProp", VStr "test")])
  /\ registered_token (moduleFromSmartConfig Samples.Config Samples.input
                                             (initial Samples.empty_heap))
    = Ok (Samples.Config, Samples.Config).
Proof. repeat split. Qed.

Example scenario_two_labels :
  provided_value (moduleFromSmartConfig Samples.A Samples.labelled_input
                                        (initial Samples.empty_heap))
    = Ok (VObj [("port", VNum 1)])
  /\ provided_value (moduleFromSmartConfig Samples.B Samples.labelled_input
                                           (initial Samples.empty_heap))
    = Ok (VObj [("port", VNum 2)]).
Proof. repeat split. Qed.

Example scenario_null_and_undefined :
  provided_value
    (moduleFromSmartConfig Samples.NullableConfig
       (VObj [("required", VStr "test"); ("nullable", VNull); ("optional", VUndefined)])
       (initial Samples.empty_heap))
  = Ok (VObj [("required", VStr "test"); ("nullable", VNull)]).
Proof. reflexivity. Qed.

Example scenario_nested_prefix :
  provided_value
    (import_at 0
       (import_at 0
          (smartModule Samples.with_nested [] (VObj [("smartImports", VArr 1)]) None
                       (VObj [("db_url", VStr "x")]) (initial Samples.nested_heap))))
  = Ok (VObj [("url", VStr "x")]).
Proof. reflexivity. Qed.

Example scenario_factory_imports_twice :
  imports_length Samples.factory_run = Ok (VNum 2)
  /\ module_name (import_at 0 Samples.factory_run) = Ok (VStr "ConfigSmartConfigModule")
  /\ module_name (import_at 1 Samples.factory_run) = Ok (VStr "ConfigSmartConfigModule").
Proof. repeat split. Qed.

Example scenario_empty_definition :
  imports_length (smartModule no_functions [] (VObj []) None VUndefined
                              (initial Samples.empty_heap))
  = Ok (VNum 0).
Proof. reflexivity. Qed.

Example scenario_invalid_import :
  moduleFromSmartImport no_functions (VStr "not-an-import") (VObj [])
                        (initial Samples.empty_heap)
  = Throw (JsError ("SmartImport: " ++ quote "not-an-import"
                      ++ " of [string], {} is not valid smart import base for module")).
Proof. reflexivity. Qed.

(** * Further properties *)

(** ** The namespacing engine *)

Lemma append_empty (s : string) : (s ++ "")%string = s.
Proof. induction s as [|c r IH]; simpl; [reflexivity | now rewrite IH]. Qed.

Lemma prefix_append_cancel (p a b : string) :
  String.prefix (p ++ a) (p ++ b) = String.prefix a b.
Proof.
  induction p as [|c r IH]; simpl; [reflexivity|].
  destruct (Ascii.ascii_dec c c); [exact IH | congruence].
Qed.

Lemma prefix_of_prefix (p q k : string) :
  String.prefix (p ++ q) k = true -> String.prefix p k = true.
Proof.
  revert k. induction p as [|c r IH]; intros k H.
  - destruct k; reflexivity.
  - destruct k as [|c' k']; [discriminate|]. simpl in *.
    destruct (Ascii.ascii_dec c c'); [now apply IH | discriminate].
Qed.

Lemma prefix_append_split (p q k : string) :
  String.prefix (p ++ q) k
  = String.prefix p k && String.prefix q (drop_chars (String.length p) k).
Proof.
  destruct (String.prefix p k) eqn:E; simpl.
  - rewrite (prefix_split p k E) at 1. apply prefix_append_cancel.
  - destruct (String.prefix (p ++ q) k) eqn:E2; [|reflexivity].
    apply prefix_of_prefix in E2. congruence.
Qed.

Lemma drop_chars_plus (p d : string) (n : nat) :
  drop_chars (String.length p + n) (p ++ d) = drop_chars n d.
Proof. unfold drop_chars. induction p as [|c r IH]; simpl; [reflexivity | exact IH]. Qed.

Lemma length_append (p q : string) :
  String.length (p ++ q) = String.length p + String.length q.
Proof. induction p as [|c r IH]; simpl; [reflexivity | now rewrite IH]. Qed.

Lemma drop_chars_append_prefix (p q k : string) :
  String.prefix p k = true ->
  drop_chars (String.length (p ++ q)) k
  = drop_chars (String.length q) (drop_chars (String.length p) k).
Proof.
  intro E. rewrite length_append. rewrite (prefix_split p k E) at 1.
  apply drop_chars_plus.
Qed.

Lemma strip_filter_compose (p q : string) (ps : props) :
  map (strip q) (filter (starts_with q) (map (strip p) (filter (starts_with p) ps)))
  = map (strip (p ++ q)) (filter (starts_with (p ++ q)) ps).
Proof.
  induction ps as [|[k v] r IH]; simpl; [reflexivity|].
  change (starts_with p (k, v)) with (String.prefix p k).
  change (starts_with (p ++ q) (k, v)) with (String.prefix (p ++ q) k).
  rewrite prefix_append_split.
  destruct (String.prefix p k) eqn:E; simpl; [|exact IH].
  change (starts_with q (strip p (k, v)))
    with (String.prefix q (drop_chars (String.length p) k)).
  destruct (String.prefix q (drop_chars (String.length p) k)); simpl; [|exact IH].
  rewrite IH. unfold strip at 1 2 4. simpl.
  now rewrite (drop_chars_append_prefix p q k E).
Qed.

Lemma is_set_append (p q : string) :
  negb (String.eqb p "") = true -> negb (String.eqb (p ++ q) "") = true.
Proof. destruct p; [discriminate | reflexivity]. Qed.

Lemma prefix_only (h : arrays) (obj : value) (prefix : option string) :
  pickLabeledAndPrefixed h obj None prefix
  = (filtered <- filterByPrefix h obj prefix ;; removePrefix h filtered prefix)%res.
Proof. reflexivity. Qed.

(** X1.  Extracting by one prefix and then by another is extracting by
    the two prefixes joined: a key [db_pool_size] reaches a schema with
    prefix [pool_] nested under prefix [db_] as [size]. *)
Theorem extract_prefixes_compose
  (h : arrays) (ps : props) (p q : option string) :
  wf_props ps ->
  (inner <- pickLabeledAndPrefixed h (VObj ps) None p ;;
   pickLabeledAndPrefixed h inner None q)%res
  = pickLabeledAndPrefixed h (VObj ps) None (Some (str_of p ++ str_of q)%string).
Proof.
  intro Hwf. rewrite !prefix_only.
  destruct (is_set p) eqn:Ep.
  - rewrite (prefix_set_object h ps p Hwf Ep). unfold rbind at 1.
    assert (Hwf' : wf_props (map (strip (str_of p)) (filter (starts_with (str_of p)) ps)))
      by now apply wf_stripped.
    assert (Epq : is_set (Some (str_of p ++ str_of q)%string) = true).
    { destruct p as [p|]; [|discriminate]. simpl in *. now apply is_set_append. }
    rewrite (prefix_set_object h ps _ Hwf Epq).
    change (str_of (Some (str_of p ++ str_of q)%string)) with (str_of p ++ str_of q)%string.
    destruct (is_set q) eqn:Eq.
    + rewrite prefix_only, (prefix_set_object h _ q Hwf' Eq).
      now rewrite strip_filter_compose.
    + rewrite prefix_only, (prefix_unset h _ q Eq).
      assert (Hq : str_of q = "").
      { destruct q as [q|]; [|reflexivity]. simpl in *.
        destruct (String.eqb q "") eqn:E; [now apply String.eqb_eq in E | discriminate]. }
      now rewrite Hq, append_empty.
  - rewrite (prefix_unset h _ p Ep). unfold rbind at 1.
    assert (Hp : str_of p = "").
    { destruct p as [p|]; [|reflexivity]. simpl in *.
      destruct (String.eqb p "") eqn:E; [now apply String.eqb_eq in E | discriminate]. }
    rewrite Hp. rewrite prefix_only.
    unfold filterByPrefix, removePrefix.
    destruct q as [q|]; reflexivity.
Qed.

Lemma extract_prefixes_compose_witness :
  (inner <- pickLabeledAndPrefixed []
              (VObj [("db_pool_size", VNum 5); ("db_url", VStr "x"); ("port", VNum 1)])
              None (Some "db_") ;;
   pickLabeledAndPrefixed [] inner None (Some "pool_"))%res
  = pickLabeledAndPrefixed []
      (VObj [("db_pool_size", VNum 5); ("db_url", VStr "x"); ("port", VNum 1)])
      None (Some "db_pool_").
Proof.
  assert (Hwf : wf_props [("db_pool_size", VNum 5); ("db_url", VStr "x"); ("port", VNum 1)])
    by solve_wf.
  exact (extract_prefixes_compose [] _ (Some "db_") (Some "pool_") Hwf).
Defined.

Lemma instantiate_with_statics
  (h : arrays) (id : nat) (name : string) (statics D : props) (arg : value) :
  instantiateSmartConfig h (VClass id name statics D) arg
  = (picked <- pickLabeledAndPrefixed h arg
                 (as_string (or_undefined (lookup "label" statics)))
                 (as_string (or_undefined (lookup "prefix" statics))) ;;
     applyPropsToSmartConfig h (VClass id name statics D) picked)%res.
Proof. reflexivity. Qed.

Lemma applyProps_ignores_statics
  (h : arrays) (id : nat) (name : string) (statics statics' D : props) (o : value) :
  applyPropsToSmartConfig h (VClass id name statics D) o
  = applyPropsToSmartConfig h (VClass id name statics' D) o.
Proof. reflexivity. Qed.

Lemma typeof_string (v : value) :
  String.eqb (typeof v) "string" = true -> exists s, v = VStr s.
Proof. destruct v; simpl; try discriminate. eauto. Qed.

(** X2.  An extended reference instantiates exactly as its schema would
    with the reference's own label and prefix for statics, each taken from
    the reference when it is a string there (the empty string included)
    and from the schema otherwise; a reference with neither instantiates
    exactly as the schema. *)
Theorem extended_reference_as_schema
  (h : arrays) (reference : props) (id : nat) (name : string) (statics D : props)
  (arg : value) :
  lookup "smartConfig" reference = Some (VClass id name statics D) ->
  instantiateExtendedSmartConfig h (VObj reference) arg
    = instantiateSmartConfig h
        (VClass id name
                [("label", effective_static reference statics "label");
                 ("prefix", effective_static reference statics "prefix")] D)
        arg
  /\ (lookup "label" reference = None -> lookup "prefix" reference = None ->
      instantiateExtendedSmartConfig h (VObj reference) arg
      = instantiateSmartConfig h (VClass id name statics D) arg).
Proof.
  intro Hsc.
  assert (E : forall k, k <> "name" ->
            (if String.eqb (typeof (or_undefined (lookup k reference))) "string"
             then Ok (as_string (or_undefined (lookup k reference)))
             else str_prop h (VClass id name statics D) k)
            = Ok (as_string (effective_static reference statics k))).
  { intros k Hk. unfold effective_static, str_prop. simpl.
    apply String.eqb_neq in Hk. rewrite Hk.
    destruct (lookup k reference) as [v|]; simpl; [|reflexivity].
    destruct v; reflexivity. }
  assert (Main : instantiateExtendedSmartConfig h (VObj reference) arg
                 = (picked <- pickLabeledAndPrefixed h arg
                                (as_string (effective_static reference statics "label"))
                                (as_string (effective_static reference statics "prefix")) ;;
                    applyPropsToSmartConfig h (VClass id name statics D) picked)%res).
  { unfold instantiateExtendedSmartConfig. cbn [get rbind].
    rewrite Hsc. cbn [or_undefined rbind].
    rewrite (E "label") by discriminate. cbn [rbind].
    rewrite (E "prefix") by discriminate. reflexivity. }
  split.
  - rewrite Main. reflexivity.
  - intros Hl Hp. rewrite Main, instantiate_with_statics.
    unfold effective_static. now rewrite Hl, Hp.
Qed.

Lemma extended_reference_as_schema_witness :
  instantiateExtendedSmartConfig []
    (VObj [("smartConfig", Samples.DbConfig); ("label", VStr "")])
    (VObj [("url", VStr "x"); ("db", VObj [("url", VStr "y")])])
  = Ok (VObj [("url", VStr "x"); ("db", VObj [("url", VStr "y")])]).
Proof.
  exact (proj1 (extended_reference_as_schema []
                  [("smartConfig", Samples.DbConfig); ("label", VStr "")]
                  3 "DbConfig" [("label", VStr "db")] []
                  (VObj [("url", VStr "x"); ("db", VObj [("url", VStr "y")])])
                  eq_refl)).
Defined.

(** X3.  When the input, a plain object, has no property under a schema's
    label, and the label names no member that every object inherits,
    instantiation fails with the TypeError of [Object.entries(undefined)],
    whether or not a prefix is set, and so does the synthesis of the
    schema's module from a plain input. *)
Theorem missing_block_fails
  (h : arrays) (id : nat) (name : string) (statics D ps : props) (l : string) :
  lookup "label" statics = Some (VStr l) ->
  l <> "" ->
  inherited l = false ->
  lookup l ps = None ->
  instantiateSmartConfig h (VClass id name statics D) (VObj ps)
    = Throw (TypeError "Cannot convert undefined or null to object")
  /\ (forall s,
        cells (st_heap s) = h ->
        isAsyncParams h (VObj ps) = Ok false ->
        moduleFromSmartConfig (VClass id name statics D) (VObj ps) s
        = Throw (TypeError "Cannot convert undefined or null to object")).
Proof.
  intros Hlabel Hl _ Hmiss.
  assert (Hinst : instantiateSmartConfig h (VClass id name statics D) (VObj ps)
                  = Throw (TypeError "Cannot convert undefined or null to object")).
  { rewrite instantiate_with_statics, Hlabel. cbn [or_undefined as_string].
    unfold pickLabeledAndPrefixed, pickLabel. cbn [is_set str_of].
    apply String.eqb_neq in Hl. rewrite Hl. cbn [negb get rbind].
    rewrite Hmiss. cbn [or_undefined].
    unfold filterByPrefix, removePrefix.
    destruct (is_set (as_string (or_undefined (lookup "prefix" statics)))); reflexivity. }
  split; [exact Hinst|].
  intros s Hs Hasync. subst h. unfold moduleFromSmartConfig. cbn [isSmartConfig isClass].
  unfold bind, reading, createNamedClass, with_heap. cbn [st_heap cells].
  rewrite Hasync. cbn [st_heap cells]. now rewrite Hinst.
Qed.

Lemma missing_block_fails_witness :
  instantiateSmartConfig [] Samples.DbConfig (VObj [("cache", VObj [])])
  = Throw (TypeError "Cannot convert undefined or null to object").
Proof.
  assert (Hl : "db" <> "") by discriminate.
  exact (proj1 (missing_block_fails [] 3 "DbConfig" [("label", VStr "db")] []
                  [("cache", VObj [])] "db" eq_refl Hl eq_refl eq_refl)).
Defined.

(** X4.  A schema with a label reads nothing of the input but the block
    under that label, and a schema with only a prefix nothing but the
    properties whose key starts with it: two inputs that agree there
    give the same instance. *)
Theorem schema_reads_its_namespace
  (h : arrays) (id : nat) (name : string) (statics D ps ps' : props) :
  (forall l, lookup "label" statics = Some (VStr l) -> l <> "" ->
             lookup l ps = lookup l ps' ->
             instantiateSmartConfig h (VClass id name statics D) (VObj ps)
             = instantiateSmartConfig h (VClass id name statics D) (VObj ps'))
  /\ (forall p, is_set (as_string (or_undefined (lookup "label" statics))) = false ->
                lookup "prefix" statics = Some (VStr p) -> p <> "" ->
                filter (starts_with p) ps = filter (starts_with p) ps' ->
                instantiateSmartConfig h (VClass id name statics D) (VObj ps)
                = instantiateSmartConfig h (VClass id name statics D) (VObj ps')).
Proof.
  split.
  - intros l Hlabel Hl Hsame. rewrite !instantiate_with_statics, Hlabel.
    cbn [or_undefined as_string]. unfold pickLabeledAndPrefixed, pickLabel.
    cbn [is_set str_of]. apply String.eqb_neq in Hl. rewrite Hl. cbn [negb get].
    now rewrite Hsame.
  - intros p Hnolabel Hprefix Hp Hsame. rewrite !instantiate_with_statics, Hprefix.
    cbn [or_undefined as_string]. unfold pickLabeledAndPrefixed.
    rewrite !(pickLabel_unset h _ _ Hnolabel). cbn [rbind].
    unfold filterByPrefix. cbn [is_set str_of]. apply String.eqb_neq in Hp. rewrite Hp.
    cbn [negb entries rbind]. now rewrite Hsame.
Qed.

Lemma schema_reads_its_namespace_witness :
  instantiateSmartConfig [] Samples.A Samples.labelled_input
  = instantiateSmartConfig [] Samples.A (VObj [("a", VObj [("port", VNum 1)])]).
Proof.
  assert (Hl : "a" <> "") by discriminate.
  exact (proj1 (schema_reads_its_namespace [] 6 "A" [("label", VStr "a")] []
                  [("a", VObj [("port", VNum 1)]); ("b", VObj [("port", VNum 2)])]
                  [("a", VObj [("port", VNum 1)])])
               "a" eq_refl Hl eq_refl).
Defined.

(** ** The module synthesizers *)


Lemma array_at_second (h : arrays) (x y : list value) :
  array_at ((h ++ [x]) ++ [y]) (S (List.length h)) = y.
Proof.
  replace (S (List.length h)) with (List.length (h ++ [x]))
    by (rewrite length_app; simpl; lia).
  apply array_at_last.
Qed.



(** ** The synthesizer for nested modules *)

Lemma bind_reading {A B} (f : arrays -> result A) (k : A -> M B) (s : state) :
  bind (reading f) k s
  = match f (cells (st_heap s)) with
    | Ok a => k a s
    | Throw e => Throw e
    end.
Proof. unfold bind, reading. destruct (f (cells (st_heap s))); reflexivity. Qed.

Lemma as_string_optional (s : option string) : as_string (optional s) = s.
Proof. destruct s; reflexivity. Qed.

Lemma wrapper_statics (h : arrays) (wrapper : props) (label prefix : option string) :
  or_undefined (lookup "label" wrapper) = optional label ->
  or_undefined (lookup "prefix" wrapper) = optional prefix ->
  str_prop h (VObj wrapper) "label" = Ok label
  /\ str_prop h (VObj wrapper) "prefix" = Ok prefix.
Proof.
  intros Hl Hp. unfold str_prop. cbn [get rbind].
  now rewrite Hl, Hp, !as_string_optional.
Qed.

Lemma wrapper_is_extended (h : arrays) (wrapper : props) (id : nat) :
  lookup "smartImport" wrapper = Some (VFun id) ->
  isExtendedSmartImport h (VObj wrapper) = Ok true.
Proof. intro H. unfold isExtendedSmartImport. cbn [get rbind]. now rewrite H. Qed.

(** X6.  With a plain root input, a nested module given as a bare
    function is called with the root input itself; given in a wrapper, it
    is called once with the part of the root input that the wrapper's
    label and prefix select, and not at all when that selection fails; a
    wrapper without label and prefix is the same as the bare function. *)
Theorem nested_module_input
  (ufun : nat -> list value -> heap -> result (value * heap))
  (id : nat) (wrapper : props) (label prefix : option string)
  (arg : value) (s : state) :
  lookup "smartImport" wrapper = Some (VFun id) ->
  or_undefined (lookup "label" wrapper) = optional label ->
  or_undefined (lookup "prefix" wrapper) = optional prefix ->
  isAsyncParams (cells (st_heap s)) arg = Ok false ->
  moduleFromSmartImport ufun (VFun id) arg s
    = call_user ufun NestedModuleSite id [arg] s
  /\ moduleFromSmartImport ufun (VObj wrapper) arg s
     = match pickLabeledAndPrefixed (cells (st_heap s)) arg label prefix with
       | Ok picked => call_user ufun NestedModuleSite id [picked] s
       | Throw e => Throw e
       end
  /\ (is_set label = false -> is_set prefix = false ->
      moduleFromSmartImport ufun (VObj wrapper) arg s
      = moduleFromSmartImport ufun (VFun id) arg s).
Proof.
  intros Hf Hl Hp Hasync.
  destruct (wrapper_statics (cells (st_heap s)) wrapper label prefix Hl Hp) as [Sl Sp].
  assert (E : moduleFromSmartImport ufun (VObj wrapper) arg s
              = match pickLabeledAndPrefixed (cells (st_heap s)) arg label prefix with
                | Ok picked => call_user ufun NestedModuleSite id [picked] s
                | Throw e => Throw e
                end).
  { unfold moduleFromSmartImport.
    change (isSmartImport (VObj wrapper)) with false. cbv iota.
    rewrite bind_reading, (wrapper_is_extended _ _ _ Hf).
    rewrite bind_reading, Hasync.
    rewrite bind_reading. cbn [get]. rewrite Hf. cbn [or_undefined].
    rewrite bind_reading, Sl. unfold rbind at 1. rewrite Sp. unfold rbind at 1.
    destruct (pickLabeledAndPrefixed (cells (st_heap s)) arg label prefix); reflexivity. }
  split; [reflexivity | split; [exact E|]].
  intros Hlabel Hprefix. rewrite E.
  unfold pickLabeledAndPrefixed. rewrite pickLabel_unset by exact Hlabel.
  unfold rbind at 1. rewrite prefix_unset by exact Hprefix. reflexivity.
Qed.

Lemma nested_module_input_witness :
  moduleFromSmartImport Samples.functions
    (VObj [("smartImport", VFun 8); ("prefix", VStr "db_")])
    (VObj [("db_url", VStr "x"); ("port", VNum 1)]) (initial Samples.empty_heap)
  = Ok (VObj [("imports", VObj [("url", VStr "x")])],
        mkState Samples.empty_heap
                [mkEvent NestedModuleSite (VFun 8) [VObj [("url", VStr "x")]]]).
Proof.
  exact (proj1 (proj2 (nested_module_input Samples.functions 8
                         [("smartImport", VFun 8); ("prefix", VStr "db_")]
                         None (Some "db_")
                         (VObj [("db_url", VStr "x"); ("port", VNum 1)])
                         (initial Samples.empty_heap)
                         eq_refl eq_refl eq_refl eq_refl))).
Defined.

(** X7.  With an asynchronous root input, a wrapped nested module is
    called once with a new asynchronous input: the root's [imports] and
    [inject], and a [useFactory] that, once the root's own has resolved to
    [V], yields the part of [V] that the wrapper's label and prefix
    select, and fails as the root's own fails.  A bare function is handed
    the root input untouched. *)
Theorem nested_module_async_input
  (ufun : nat -> list value -> heap -> result (value * heap))
  (id : nat) (wrapper : props) (label prefix : option string)
  (arg imports inject useFactory : value) (s : state) :
  lookup "smartImport" wrapper = Some (VFun id) ->
  or_undefined (lookup "label" wrapper) = optional label ->
  or_undefined (lookup "prefix" wrapper) = optional prefix ->
  get (cells (st_heap s)) arg "useFactory" = Ok useFactory ->
  isFunction useFactory = true ->
  get (cells (st_heap s)) arg "imports" = Ok imports ->
  get (cells (st_heap s)) arg "inject" = Ok inject ->
  moduleFromSmartImport ufun (VObj wrapper) arg s
    = call_user ufun NestedModuleSite id
        [VObj [("imports", imports); ("inject", inject);
               ("useFactory", VImportFactory (VObj wrapper) useFactory)]] s
  /\ moduleFromSmartImport ufun (VFun id) arg s
     = call_user ufun NestedModuleSite id [arg] s
  /\ (forall site args s1 V s2,
        call ufun UseFactorySite useFactory args s1 = Ok (V, s2) ->
        call ufun site (VImportFactory (VObj wrapper) useFactory) args s1
        = match pickLabeledAndPrefixed (cells (st_heap s2)) V label prefix with
          | Ok picked => Ok (picked, s2)
          | Throw e => Throw e
          end)
  /\ (forall site args s1 e,
        call ufun UseFactorySite useFactory args s1 = Throw e ->
        call ufun site (VImportFactory (VObj wrapper) useFactory) args s1 = Throw e).
Proof.
  intros Hf Hl Hp Huse Hfun Himports Hinject.
  assert (Hasync : isAsyncParams (cells (st_heap s)) arg = Ok true).
  { unfold isAsyncParams. rewrite Huse. unfold isFunction in Hfun.
    unfold rbind. now rewrite Hfun. }
  split; [|split; [reflexivity | split]].
  - unfold moduleFromSmartImport.
    change (isSmartImport (VObj wrapper)) with false. cbv iota.
    rewrite bind_reading, (wrapper_is_extended _ _ _ Hf).
    rewrite bind_reading, Hasync.
    rewrite bind_reading. cbn [get]. rewrite Hf. cbn [or_undefined].
    rewrite bind_reading, Himports, bind_reading, Hinject, bind_reading, Huse.
    reflexivity.
  - intros site args s1 V s2 Hcall. cbn [call]. unfold bind. rewrite Hcall.
    unfold reading.
    destruct (wrapper_statics (cells (st_heap s2)) wrapper label prefix Hl Hp) as [Sl Sp].
    rewrite Sl. unfold rbind at 1. rewrite Sp. unfold rbind at 1. reflexivity.
  - intros site args s1 e Hcall. cbn [call]. unfold bind. now rewrite Hcall.
Qed.

Lemma nested_module_async_input_witness :
  call Samples.functions UseFactorySite
       (VImportFactory (VObj [("smartImport", VFun 9); ("label", VStr "requiredProp")])
                       (VFun 7))
       [] (initial Samples.async_heap)
  = Ok (VStr "test", mkState Samples.async_heap [mkEvent UseFactorySite (VFun 7) []]).
Proof.
  exact (proj1 (proj2 (proj2
           (nested_module_async_input Samples.functions 9
              [("smartImport", VFun 9); ("label", VStr "requiredProp")]
              (Some "requiredProp") None
              Samples.async_input (VArr 0) (VArr 1) (VFun 7) (initial Samples.async_heap)
              eq_refl eq_refl eq_refl eq_refl eq_refl eq_refl eq_refl)))
           UseFactorySite [] (initial Samples.async_heap) Samples.input
           (mkState Samples.async_heap [mkEvent UseFactorySite (VFun 7) []]) eq_refl).
Defined.

Lemma invalid_import_source_throws
  (ufun : nat -> list value -> heap -> result (value * heap))
  (c arg : value) (s : state) (a b : option string) :
  isSmartImport c = false ->
  isExtendedSmartImport (cells (st_heap s)) c = Ok false ->
  JSON_stringify (cells (st_heap s)) c = Ok a ->
  JSON_stringify (cells (st_heap s)) arg = Ok b ->
  moduleFromSmartImport ufun c arg s = Throw (JsError (invalid_import_text c a b)).
Proof.
  intros Hc He Ha Hb. unfold moduleFromSmartImport. rewrite Hc.
  unfold bind, reading, invalid_import_message, throw. rewrite He, Ha, Hb. reflexivity.
Qed.

(** X8.  A value other than [null] and [undefined] that is neither a
    function nor a wrapper around one makes the synthesizer for nested
    modules throw the error whose message holds the serialized value, its
    type and the serialized input, and the closure throws it when the
    value is the first [smartImports] entry of a static descriptor without
    [smartConfigs]; a class is such a value, and is serialized as
    [undefined]; [null] and [undefined] raise a TypeError instead. *)
Theorem invalid_import_source
  (ufun : nat -> list value -> heap -> result (value * heap))
  (c arg : value) (s : state) (a b : option string) :
  isSmartImport c = false ->
  isExtendedSmartImport (cells (st_heap s)) c = Ok false ->
  JSON_stringify (cells (st_heap s)) c = Ok a ->
  JSON_stringify (cells (st_heap s)) arg = Ok b ->
  moduleFromSmartImport ufun c arg s = Throw (JsError (invalid_import_text c a b))
  /\ (forall definition loc rest this_ a' b',
        lookup "smartConfigs" definition = None ->
        lookup "smartImports" definition = Some (VArr loc) ->
        array_at (cells (st_heap s)) loc = c :: rest ->
        isExtendedSmartImport (cells (st_heap s) ++ [[]]) c = Ok false ->
        JSON_stringify (cells (st_heap s) ++ [[]]) c = Ok a' ->
        JSON_stringify (cells (st_heap s) ++ [[]]) arg = Ok b' ->
        smartModule ufun [] (VObj definition) this_ arg s
        = Throw (JsError (invalid_import_text c a' b')))
  /\ (forall id name statics fields,
        lookup "smartImport" statics = None ->
        moduleFromSmartImport ufun (VClass id name statics fields) arg s
        = Throw (JsError ("SmartImport: undefined of [function], " ++ interpolate b
                            ++ " is not valid smart import base for module")))
  /\ moduleFromSmartImport ufun VNull arg s
     = Throw (TypeError "Cannot read properties of null (reading 'smartImport')")
  /\ moduleFromSmartImport ufun VUndefined arg s
     = Throw (TypeError "Cannot read properties of undefined (reading 'smartImport')").
Proof.
  intros Hc He Ha Hb. split; [|split; [|split; [|split]]].
  - now apply invalid_import_source_throws.
  - intros definition loc rest this_ a' b' Hnone Hdef Hloc He' Ha' Hb'.
    assert (Hlt : loc < List.length (cells (st_heap s))).
    { apply array_at_allocated. rewrite Hloc. discriminate. }
    unfold smartModule, smartConfigModulesOf, smartImportModulesOf.
    unfold bind, createNamedClass, new_array, reading, elements, ret, with_heap. simpl.
    rewrite Hnone, Hdef. simpl.
    rewrite (array_at_app _ _ _ Hlt), Hloc. simpl. unfold bind.
    rewrite (invalid_import_source_throws ufun c arg _ a' b'); auto.
  - intros id name statics fields Hnone.
    rewrite (invalid_import_source_throws ufun _ arg s None b); auto.
    unfold isExtendedSmartImport. cbn [get rbind].
    change (String.eqb "smartImport" "name") with false. cbv iota. now rewrite Hnone.
  - reflexivity.
  - reflexivity.
Qed.

Lemma invalid_import_source_witness :
  smartModule no_functions [] (VObj [("smartImports", VArr 0)]) None (VObj [])
              (initial (mkHeap 10 [[VObj [("notAFunction", VBool true)]]]))
  = Throw (JsError ("SmartImport: {" ++ quote "notAFunction"
                      ++ ":true} of [object], {} is not valid smart import base for module")).
Proof.
  exact (proj1 (proj2 (invalid_import_source no_functions
                         (VObj [("notAFunction", VBool true)]) (VObj [])
                         (initial (mkHeap 10 [[VObj [("notAFunction", VBool true)]]])) _ _
                         eq_refl eq_refl eq_refl eq_refl))
               [("smartImports", VArr 0)] 0 [] None _ _
               eq_refl eq_refl eq_refl eq_refl eq_refl eq_refl).
Defined.

(** ** The closure over a static descriptor *)

(** A completed run of the closure over a static descriptor, step by
    step. *)
Lemma static_run_steps
  (ufun : nat -> list value -> heap -> result (value * heap))
  (inline : list value) (definition : props) (this_ : option string) (arg : value)
  (s : state) (m : value) (s' : state) :
  smartModule ufun inline (VObj definition) this_ arg s = Ok (m, s') ->
  exists s0 inl s1 s2 sch s3 nst s4 s5,
    createNamedClass (str_of this_ ++ "SmartModule") s
      = Ok (VClass (next_id (st_heap s)) (str_of this_ ++ "SmartModule") [] [], s0)
    /\ mapM (fun c => moduleFromSmartConfig c arg) inline s0 = Ok (inl, s1)
    /\ new_array inl s1 = Ok (VArr (List.length (cells (st_heap s1))), s2)
    /\ smartConfigModulesOf (VObj definition) arg s2 = Ok (sch, s3)
    /\ smartImportModulesOf ufun (VObj definition) arg s3 = Ok (nst, s4)
    /\ allImports (VArr (List.length (cells (st_heap s1)))) sch nst s4
       = Ok (VArr (List.length (cells (st_heap s4))), s5)
    /\ appendImports
         (VObj (assign [("module",
                         VClass (next_id (st_heap s)) (str_of this_ ++ "SmartModule") [] [])]
                       definition))
         (VArr (List.length (cells (st_heap s4)))) s5 = Ok (m, s').
Proof.
  intro H. unfold smartModule in H.
  invert_bind H as module s0 Hmodule.
  invert_bind H as inl s1 Hinline.
  invert_bind H as inlineArr s2 Harr.
  change (isSmartModule (VObj definition)) with true in H. cbv iota zeta in H.
  invert_bind H as sch s3 Hsch.
  invert_bind H as nst s4 Hnst.
  invert_bind H as target s5 Htarget.
  invert_bind H as imports s6 Himports.
  assert (Hm : module = VClass (next_id (st_heap s)) (str_of this_ ++ "SmartModule") [] []).
  { unfold createNamedClass in Hmodule. now inversion Hmodule. }
  subst module.
  destruct (new_array_Ok _ _ _ _ Harr) as [-> _].
  unfold withModule in Htarget. apply reading_Ok in Htarget. destruct Htarget as [Ht ->].
  inversion Ht; subst target. clear Ht. simpl spread_props in H.
  assert (Hi : imports = VArr (List.length (cells (st_heap s4)))).
  { unfold allImports in Himports. invert_bind Himports as items s7 Hitems.
    apply elements_Ok in Hitems. destruct Hitems as (li & _ & _ & ->).
    now apply new_array_Ok in Himports. }
  subst imports.
  exists s0, inl, s1, s2, sch, s3, nst, s4, s6. repeat split; assumption.
Qed.

Lemma appendImports_result (target : props) (imports : value)
      (s : state) (m : value) (s' : state) :
  appendImports (VObj target) imports s = Ok (m, s') ->
  m = VObj target \/ m = VObj (set_prop target "imports" imports).
Proof.
  unfold appendImports. intro H. invert_bind H as own s1 Hown.
  destruct (negb (truthy own)).
  - apply ret_Ok in H. destruct H as [-> _]. now right.
  - invert_bind H as items s2 Hitems. invert_bind H as u s3 Hpush.
    apply ret_Ok in H. destruct H as [-> _]. now left.
Qed.

Lemma lookup_module_with_module (module : value) (definition : props) :
  wf_props definition ->
  lookup "module" (assign [("module", module)] definition)
  = Some (match lookup "module" definition with
          | Some own => own
          | None => module
          end).
Proof.
  intro Hwf. rewrite lookup_assign, (lookup_rev_wf _ definition Hwf).
  destruct (lookup "module" definition); reflexivity.
Qed.

(** X9.  The module that the closure over a static descriptor returns is
    the descriptor with two keys settled: every key other than [module]
    and [imports] is the descriptor's own, [smartConfigs] and
    [smartImports] included, and [module] is the descriptor's own when it
    has one, and otherwise the class created for this invocation, named
    after the class the closure is a static member of. *)
Theorem static_descriptor_passes_through
  (ufun : nat -> list value -> heap -> result (value * heap))
  (inline : list value) (definition : props) (this_ : option string) (arg : value)
  (s : state) (m : value) (s' : state) :
  wf_props definition ->
  smartModule ufun inline (VObj definition) this_ arg s = Ok (m, s') ->
  exists assembled,
    m = VObj assembled
    /\ (forall k, k <> "module" -> k <> "imports" ->
          lookup k assembled = lookup k definition)
    /\ lookup "module" assembled
       = Some (match lookup "module" definition with
               | Some own => own
               | None => VClass (next_id (st_heap s)) (str_of this_ ++ "SmartModule") [] []
               end).
Proof.
  intros Hwf H. apply static_run_steps in H.
  destruct H as (s0 & inl & s1 & s2 & sch & s3 & nst & s4 & s5 & _ & _ & _ & _ & _ & _ & H).
  apply appendImports_result in H. destruct H as [-> | ->]; eexists; (split; [reflexivity|]).
  - split.
    + intros k Hm _. now apply lookup_with_module.
    + now apply lookup_module_with_module.
  - split.
    + intros k Hm Hi. rewrite lookup_set_prop. apply String.eqb_neq in Hi. rewrite Hi.
      now apply lookup_with_module.
    + rewrite lookup_set_prop. change (String.eqb "module" "imports") with false. cbv iota.
      now apply lookup_module_with_module.
Qed.

Lemma static_descriptor_passes_through_witness :
  exists assembled,
    fst (Samples.completed (Samples.static_run (initial Samples.static_heap)))
      = VObj assembled
    /\ (forall k, k <> "module" -> k <> "imports" ->
          lookup k assembled = lookup k Samples.static_definition)
    /\ lookup "module" assembled = Some (VClass 10 "SmartModule" [] []).
Proof.
  assert (Hwf : wf_props Samples.static_definition) by solve_wf.
  exact (static_descriptor_passes_through Samples.functions [] Samples.static_definition
           None Samples.input (initial Samples.static_heap) _ _ Hwf eq_refl).
Defined.



(** ** Footprints of a whole invocation

    A relation that is also kept by every call into user code and by
    [push] is kept by a completed invocation of the closure. *)

Section WithinClosure.

Variable R : state -> state -> Prop.
Hypothesis R_refl : forall s, R s s.
Hypothesis R_trans : forall a b c, R a b -> R b c -> R a c.
Hypothesis R_alloc :
  forall s l, R s (with_heap s (mkHeap (next_id (st_heap s)) (cells (st_heap s) ++ [l]))).
Hypothesis R_fresh :
  forall s, R s (with_heap s (mkHeap (S (next_id (st_heap s))) (cells (st_heap s)))).
Hypothesis R_push :
  forall s loc items,
    R s (with_heap s (mkHeap (next_id (st_heap s))
                             (update (cells (st_heap s)) loc
                                     (array_at (cells (st_heap s)) loc ++ items)))).

Variable ufun : nat -> list value -> heap -> result (value * heap).
Hypothesis R_call_any : forall site id args, within R (call_user ufun site id args).

Lemma within_call_any (site : call_site) (f : value) (args : list value) :
  within R (call ufun site f args).
Proof.
  revert site args.
  induction f; intros site args; simpl; try apply within_throw.
  - apply R_call_any.
  - apply within_bind; [exact R_trans | apply IHf2 | intro; now apply within_reading].
  - apply within_bind; [exact R_trans | apply IHf2 | intro; now apply within_reading].
  - apply within_bind; [exact R_trans | apply IHf2 | intro; now apply within_reading].
Qed.

Lemma within_appendImports (target imports : value) :
  within R (appendImports target imports).
Proof.
  unfold appendImports.
  apply within_bind; [exact R_trans | now apply within_reading |].
  intro own. destruct (negb (truthy own)); [now apply within_ret|].
  apply within_bind; [exact R_trans | now apply within_elements |].
  intro items. apply within_bind; [exact R_trans | | intro; now apply within_ret].
  destruct own; try apply within_throw.
  intros s u s' H. simpl in H. inversion H. apply R_push.
Qed.

Lemma within_tail (module definition inlineArr : value) (sch nst : list value) :
  within R (target <- withModule module definition ;;
            imports <- allImports inlineArr sch nst ;;
            appendImports target imports)%M.
Proof.
  apply within_bind; [exact R_trans | now apply within_withModule |].
  intro target. apply within_bind; [exact R_trans | now apply within_allImports |].
  intro imports. apply within_appendImports.
Qed.

(** After the class of the module has been created, the rest of a
    completed invocation keeps the relation. *)
Lemma smartModule_after_fresh (inline : list value) (smartModuleOrFactory : value)
      (this_ : option string) (arg : value) (s : state) (m : value) (s' : state) :
  smartModule ufun inline smartModuleOrFactory this_ arg s = Ok (m, s') ->
  R (with_heap s (mkHeap (S (next_id (st_heap s))) (cells (st_heap s)))) s'.
Proof.
  assert (Hcall : forall site id args,
             site <> FactorySite -> within R (call_user ufun site id args))
    by (intros; apply R_call_any).
  assert (Hsch : forall d, within R (smartConfigModulesOf d arg))
    by (intro; now apply within_smartConfigModulesOf).
  assert (Hnst : forall d, within R (smartImportModulesOf ufun d arg))
    by (intro; now apply within_smartImportModulesOf).
  assert (Hfactory : forall args X (k : value -> M X),
             (forall d, within R (k d)) ->
             within R (bind (call ufun FactorySite smartModuleOrFactory args) k)).
  { intros args X k Hk. apply within_bind; [exact R_trans | apply within_call_any | exact Hk]. }
  intro H. unfold smartModule in H.
  invert_bind H as module s0 Hmodule.
  unfold createNamedClass in Hmodule. inversion Hmodule as [[Hm Hs0]]. clear Hmodule.
  rewrite Hs0. clear Hm Hs0.
  match type of H with
  | ?f _ = _ => assert (W : within R f); [|exact (W _ _ _ H)]
  end.
  apply within_bind; [exact R_trans | now apply within_inline_modules |]. intro inl.
  apply within_bind; [exact R_trans | now apply within_new_array |]. intro inlineArr.
  destruct (isSmartModule smartModuleOrFactory).
  - apply within_bind; [exact R_trans | apply Hsch |]. intro sch.
    apply within_bind; [exact R_trans | apply Hnst |]. intro nst.
    apply within_tail.
  - apply within_bind; [exact R_trans | now apply within_reading |]. intro async.
    destruct async.
    + apply Hfactory. intro first.
      apply within_bind; [exact R_trans | apply Hsch |]. intro sch.
      apply within_bind; [exact R_trans | apply Hnst |]. intro nst.
      apply Hfactory. intro second. apply within_tail.
    + apply within_bind; [exact R_trans | now apply within_instantiateInline |].
      intro instances.
      apply Hfactory. intro first.
      apply within_bind; [exact R_trans | apply Hsch |]. intro sch.
      apply within_bind; [exact R_trans | apply Hnst |]. intro nst.
      apply Hfactory. intro second. apply within_tail.
Qed.

Lemma within_smartModule (inline : list value) (smartModuleOrFactory : value)
      (this_ : option string) (arg : value) :
  within R (smartModule ufun inline smartModuleOrFactory this_ arg).
Proof.
  intros s m s' H. eapply R_trans; [apply R_fresh|].
  eapply smartModule_after_fresh; eauto.
Qed.

End WithinClosure.

Lemma identities_kept_refl (s : state) : identities_kept s s.
Proof. unfold identities_kept. lia. Qed.

Lemma identities_kept_trans (a b c : state) :
  identities_kept a b -> identities_kept b c -> identities_kept a c.
Proof. unfold identities_kept. lia. Qed.

Lemma identities_kept_call
      (ufun : nat -> list value -> heap -> result (value * heap))
      (site : call_site) (id : nat) (args : list value) :
  keeps_identities ufun -> within identities_kept (call_user ufun site id args).
Proof.
  intros Hu s v s' H. unfold call_user in H.
  destruct (ufun id args (st_heap s)) as [[v0 h']|e] eqn:E; [|discriminate].
  inversion H; subst. exact (Hu _ _ _ _ _ E).
Qed.

Lemma invocation_takes_an_identity
      (ufun : nat -> list value -> heap -> result (value * heap))
      (inline : list value) (smartModuleOrFactory : value)
      (this_ : option string) (arg : value) (s : state) (m : value) (s' : state) :
  keeps_identities ufun ->
  smartModule ufun inline smartModuleOrFactory this_ arg s = Ok (m, s') ->
  next_id (st_heap s) < next_id (st_heap s').
Proof.
  intros Hu H.
  apply (smartModule_after_fresh identities_kept) in H.
  - unfold identities_kept in H. simpl in H. lia.
  - apply identities_kept_refl.
  - apply identities_kept_trans.
  - intros; unfold identities_kept; simpl; lia.
  - intros; unfold identities_kept; simpl; lia.
  - intros; unfold identities_kept; simpl; lia.
  - intros site id args. now apply identities_kept_call.
Qed.

(** X11.  Every completed invocation of the closure, over a descriptor or
    a factory, takes at least one new identity; and two completed
    invocations of the closure over a static descriptor without a [module]
    of its own return modules whose classes bear the same name and are
    different classes, the later one the newer. *)
Theorem invocations_make_distinct_modules
  (ufun : nat -> list value -> heap -> result (value * heap))
  (inline : list value) (definition : props) (this_ : option string)
  (arg1 arg2 : value) (s : state) (m1 : value) (s1 t : state) (m2 : value) (s2 : state) :
  keeps_identities ufun ->
  wf_props definition ->
  lookup "module" definition = None ->
  smartModule ufun inline (VObj definition) this_ arg1 s = Ok (m1, s1) ->
  identities_kept s1 t ->
  smartModule ufun inline (VObj definition) this_ arg2 t = Ok (m2, s2) ->
  (forall inline' smartModuleOrFactory this' arg' a m' a',
      smartModule ufun inline' smartModuleOrFactory this' arg' a = Ok (m', a') ->
      next_id (st_heap a) < next_id (st_heap a'))
  /\ exists id1 id2,
       get (cells (st_heap s1)) m1 "module"
         = Ok (VClass id1 (str_of this_ ++ "SmartModule") [] [])
       /\ get (cells (st_heap s2)) m2 "module"
          = Ok (VClass id2 (str_of this_ ++ "SmartModule") [] [])
       /\ id1 < id2.
Proof.
  intros Hu Hwf Hnone H1 Hlater H2. split.
  - intros inline' f this' arg' a m' a'. now apply invocation_takes_an_identity.
  - pose proof (invocation_takes_an_identity _ _ _ _ _ _ _ _ Hu H1) as L1.
    assert (Hmod : forall arg a m a',
               smartModule ufun inline (VObj definition) this_ arg a = Ok (m, a') ->
               get (cells (st_heap a')) m "module"
               = Ok (VClass (next_id (st_heap a)) (str_of this_ ++ "SmartModule") [] [])).
    { intros arg a m a' H. apply static_run_steps in H.
      destruct H as (s0 & inl & s3 & s4 & sch & s5 & nst & s6 & s7
                     & _ & _ & _ & _ & _ & _ & H).
      apply appendImports_result in H. destruct H as [-> | ->]; cbn [get].
      - now rewrite lookup_module_with_module, Hnone.
      - rewrite lookup_set_prop. change (String.eqb "module" "imports") with false.
        cbv iota. now rewrite lookup_module_with_module, Hnone. }
    exists (next_id (st_heap s)), (next_id (st_heap t)).
    split; [now apply (Hmod arg1) | split; [now apply (Hmod arg2)|]].
    unfold identities_kept in Hlater. lia.
Qed.

Lemma invocations_make_distinct_modules_witness :
  exists id1 id2,
    get (cells (st_heap (snd (Samples.completed
                                (Samples.static_run (initial Samples.static_heap))))))
        (fst (Samples.completed (Samples.static_run (initial Samples.static_heap))))
        "module"
      = Ok (VClass id1 "SmartModule" [] [])
    /\ get (cells (st_heap
                     (snd (Samples.completed
                             (Samples.static_run
                                (snd (Samples.completed
                                        (Samples.static_run
                                           (initial Samples.static_heap)))))))))
           (fst (Samples.completed
                   (Samples.static_run
                      (snd (Samples.completed
                              (Samples.static_run (initial Samples.static_heap)))))))
           "module"
       = Ok (VClass id2 "SmartModule" [] [])
    /\ id1 < id2.
Proof.
  assert (Hu : keeps_identities Samples.functions).
  { intros id args h v h' H. unfold Samples.functions in H.
    do 10 (destruct id as [|id];
           [simpl in H; first [discriminate | inversion H; subst; lia]|]).
    discriminate. }
  assert (Hwf : wf_props Samples.static_definition) by solve_wf.
  assert (Hk : identities_kept
                 (snd (Samples.completed (Samples.static_run (initial Samples.static_heap))))
                 (snd (Samples.completed (Samples.static_run (initial Samples.static_heap)))))
    by apply identities_kept_refl.
  exact (proj2 (invocations_make_distinct_modules Samples.functions []
                  Samples.static_definition None Samples.input Samples.input
                  (initial Samples.static_heap) _ _ _ _ _
                  Hu Hwf eq_refl eq_refl Hk eq_refl)).
Defined.

(** ** The shape of every synthetic schema module *)

Lemma bind_createNamedClass {B} (name : string) (k : value -> M B) (s : state) :
  bind (createNamedClass name) k s
  = k (VClass (next_id (st_heap s)) name [] [])
      (mkState (mkHeap (S (next_id (st_heap s))) (cells (st_heap s))) (st_trace s)).
Proof. reflexivity. Qed.

Lemma bind_new_array {B} (l : list value) (k : value -> M B) (s : state) :
  bind (new_array l) k s
  = k (VArr (List.length (cells (st_heap s))))
      (mkState (mkHeap (next_id (st_heap s)) (cells (st_heap s) ++ [l])) (st_trace s)).
Proof. reflexivity. Qed.

Lemma or_else_class_truthy (token schema : value) :
  isClass schema = true -> truthy (or_else token schema) = true.
Proof.
  intro H. unfold or_else. destruct (truthy token) eqn:T; [exact T|].
  destruct schema; try discriminate. reflexivity.
Qed.

Ltac run_step H :=
  first [ rewrite bind_createNamedClass in H
        | rewrite bind_new_array in H
        | rewrite bind_reading in H;
          match type of H with
          | match ?x with _ => _ end = _ => destruct x eqn:?; [|discriminate]
          end ];
  cbn [st_heap cells next_id st_trace] in H.

Ltac branch H :=
  match type of H with
  | (if ?b then _ else _) _ = _ => destruct b
  end.

(** A completed run of the synthesizer, in full. *)
Lemma schema_module_run (c arg : value) (s : state) (m : value) (s' : state) :
  moduleFromSmartConfig c arg s = Ok (m, s') ->
  exists schema provider token,
    (c = schema \/ get (cells (st_heap s)) c "smartConfig" = Ok schema)
    /\ isClass schema = true
    /\ m = VObj [("module",
                  VClass (next_id (st_heap s)) (class_name schema ++ "SmartConfigModule") [] []);
                 ("providers", VArr (List.length (cells (st_heap s))));
                 ("exports", VArr (S (List.length (cells (st_heap s)))))]
    /\ s' = mkState (mkHeap (S (next_id (st_heap s)))
                            ((cells (st_heap s) ++ [[provider]]) ++ [[token]]))
                    (st_trace s)
    /\ get (cells (st_heap s')) provider "provide" = Ok token
    /\ truthy token = true.
Proof.
  intro H. unfold moduleFromSmartConfig in H.
  destruct (isSmartConfig c) eqn:Ec.
  - destruct c; try discriminate Ec.
    run_step H. branch H.
    + do 8 run_step H. apply ret_Ok in H. destruct H as [-> ->].
      rewrite length_app, Nat.add_1_r.
      eexists (VClass id name statics fields), _, _.
      split; [now left|]. split; [reflexivity|]. split; [reflexivity|].
      split; [reflexivity|]. split.
      * cbn in *. congruence.
      * now apply or_else_class_truthy.
    + do 6 run_step H. apply ret_Ok in H. destruct H as [-> ->].
      rewrite length_app, Nat.add_1_r.
      eexists (VClass id name statics fields), _, _.
      split; [now left|]. split; [reflexivity|]. split; [reflexivity|].
      split; [reflexivity|]. split.
      * cbn in *. congruence.
      * now apply or_else_class_truthy.
  - run_step H. branch H; [|run_step H; discriminate].
    match goal with
    | E : isExtendedSmartConfig _ _ = Ok true |- _ =>
        unfold isExtendedSmartConfig in E;
        destruct (get (cells (st_heap s)) c "smartConfig") as [schema|] eqn:Es;
        [|discriminate]; cbn [rbind] in E;
        assert (Et : (truthy schema && isSmartConfig schema)%bool = true) by congruence;
        apply andb_prop in Et; destruct Et as [_ Hclass]
    end.
    assert (Hobj : exists reference, c = VObj reference).
    { destruct c; try discriminate Ec; cbn in Es; inversion Es; subst schema;
        try discriminate Hclass. eauto. }
    destruct Hobj as [reference ->].
    run_step H. rewrite bind_reading, Es in H. branch H.
    + do 8 run_step H. apply ret_Ok in H. destruct H as [-> ->].
      rewrite length_app, Nat.add_1_r.
      eexists schema, _, _.
      split; [now right|]. split; [exact Hclass|]. split; [reflexivity|].
      split; [reflexivity|]. split.
      * cbn in *. congruence.
      * now apply or_else_class_truthy.
    + do 6 run_step H. apply ret_Ok in H. destruct H as [-> ->].
      rewrite length_app, Nat.add_1_r.
      eexists schema, _, _.
      split; [now right|]. split; [exact Hclass|]. split; [reflexivity|].
      split; [reflexivity|]. split.
      * cbn in *. congruence.
      * now apply or_else_class_truthy.
Qed.

(** X12.  Whatever the source and the input, a module that the
    synthesizer returns for a schema has for [module] the class created
    first in this synthesis, named after the schema; it has exactly one
    provider and exactly one export, the provider is registered under the
    very token that is exported, and that token is never falsy. *)
Theorem schema_module_shape (c arg : value) (s : state) (m : value) (s' : state) :
  moduleFromSmartConfig c arg s = Ok (m, s') ->
  exists schema provider token,
    (c = schema \/ get (cells (st_heap s)) c "smartConfig" = Ok schema)
    /\ isClass schema = true
    /\ get (cells (st_heap s')) m "module"
       = Ok (VClass (next_id (st_heap s)) (class_name schema ++ "SmartConfigModule") [] [])
    /\ listed "providers" (Ok (m, s')) = Ok [provider]
    /\ listed "exports" (Ok (m, s')) = Ok [token]
    /\ get (cells (st_heap s')) provider "provide" = Ok token
    /\ truthy token = true.
Proof.
  intro H. apply schema_module_run in H.
  destruct H as (schema & provider & token & Hc & Hclass & -> & -> & Hprovide & Htoken).
  exists schema, provider, token.
  split; [exact Hc|]. split; [exact Hclass|]. split; [reflexivity|].
  unfold listed. cbn [st_heap cells get lookup String.eqb Ascii.eqb Bool.eqb or_undefined].
  rewrite array_at_last2, array_at_second.
  split; [reflexivity|]. split; [reflexivity|]. split; [exact Hprovide | exact Htoken].
Qed.

Lemma schema_module_shape_witness :
  exists schema provider token,
    (Samples.DbConfig = schema
     \/ get (cells Samples.empty_heap) Samples.DbConfig "smartConfig" = Ok schema)
    /\ isClass schema = true
    /\ get (cells (st_heap
                     (snd (Samples.completed
                             (moduleFromSmartConfig Samples.DbConfig
                                (VObj [("db", VObj [("url", VStr "x")])])
                                (initial Samples.empty_heap))))))
           (fst (Samples.completed
                   (moduleFromSmartConfig Samples.DbConfig
                      (VObj [("db", VObj [("url", VStr "x")])])
                      (initial Samples.empty_heap))))
           "module"
       = Ok (VClass 10 (class_name schema ++ "SmartConfigModule") [] [])
    /\ listed "providers"
          (Ok (Samples.completed
                 (moduleFromSmartConfig Samples.DbConfig
                    (VObj [("db", VObj [("url", VStr "x")])])
                    (initial Samples.empty_heap))))
       = Ok [provider]
    /\ listed "exports"
          (Ok (Samples.completed
                 (moduleFromSmartConfig Samples.DbConfig
                    (VObj [("db", VObj [("url", VStr "x")])])
                    (initial Samples.empty_heap))))
       = Ok [token]
    /\ get (cells (st_heap
                     (snd (Samples.completed
                             (moduleFromSmartConfig Samples.DbConfig
                                (VObj [("db", VObj [("url", VStr "x")])])
                                (initial Samples.empty_heap))))))
           provider "provide" = Ok token
    /\ truthy token = true.
Proof.
  exact (schema_module_shape Samples.DbConfig (VObj [("db", VObj [("url", VStr "x")])])
           (initial Samples.empty_heap) _ _ eq_refl).
Defined.

(** ** The user code that the closure over a static descriptor runs *)










(** ** Appending to the imports of a module *)

Lemma array_at_update_other (h : arrays) (loc other : nat) (x : list value) :
  other <> loc -> array_at (update h loc x) other = array_at h other.
Proof.
  unfold array_at. revert loc other.
  induction h as [|y r IH]; intros loc other H; simpl; [reflexivity|].
  destruct loc as [|j]; destruct other as [|i]; simpl; try reflexivity; try congruence.
  apply IH. congruence.
Qed.

Lemma length_update {A} (l : list A) (i : nat) (x : A) :
  List.length (update l i x) = List.length l.
Proof.
  revert i. induction l as [|y r IH]; intro i; simpl; [reflexivity|].
  destruct i; simpl; [reflexivity | now rewrite IH].
Qed.

(** X14.  [appendImports] on a module without imports of its own returns
    it holding the very array it was given, not a copy; on a module with
    an array of its own it returns the module itself after extending that
    array in place with the new elements, in order, every other array
    staying as it was; and when the module's own [imports] is truthy but
    not an array it throws a TypeError. *)
Theorem appendImports_extends_in_place (target : props) (loc : nat) (s : state) :
  (truthy (or_undefined (lookup "imports" target)) = false ->
   appendImports (VObj target) (VArr loc) s
   = Ok (VObj (set_prop target "imports" (VArr loc)), s))
  /\ (forall own,
        lookup "imports" target = Some (VArr own) ->
        own < List.length (cells (st_heap s)) ->
        exists s',
          appendImports (VObj target) (VArr loc) s = Ok (VObj target, s')
          /\ array_at (cells (st_heap s')) own
             = array_at (cells (st_heap s)) own ++ array_at (cells (st_heap s)) loc
          /\ (forall other, other <> own ->
                array_at (cells (st_heap s')) other = array_at (cells (st_heap s)) other)
          /\ List.length (cells (st_heap s')) = List.length (cells (st_heap s))
          /\ next_id (st_heap s') = next_id (st_heap s)
          /\ st_trace s' = st_trace s)
  /\ (forall own,
        lookup "imports" target = Some own ->
        truthy own = true ->
        (forall l, own <> VArr l) ->
        exists msg, appendImports (VObj target) (VArr loc) s = Throw (TypeError msg)).
Proof.
  split; [|split].
  - intro Hnone. unfold appendImports. rewrite bind_reading. cbn [get].
    now rewrite Hnone.
  - intros own Hown Hlt. unfold appendImports. rewrite bind_reading. cbn [get].
    rewrite Hown. cbn [or_undefined truthy negb elements]. rewrite bind_reading.
    unfold bind, push, ret, with_heap.
    eexists. split; [reflexivity|]. cbn [st_heap cells next_id st_trace].
    split; [now apply array_at_update|].
    split; [intros other Hother; now apply array_at_update_other|].
    split; [apply length_update|]. now split.
  - intros own Hown Htruthy Hnot. unfold appendImports. rewrite bind_reading. cbn [get].
    rewrite Hown. cbn [or_undefined]. rewrite Htruthy. cbn [negb elements].
    rewrite bind_reading. unfold bind, push.
    destruct own; try (eexists; reflexivity).
    exfalso. now apply (Hnot loc0).
Qed.

(** ** Arguments that are refused with a TypeError *)

(** X15.  A class given where the descriptor or the factory is expected
    is taken for a factory and called without [new], which is a
    TypeError; [null], and no argument at all, are taken for a static
    descriptor, whose [smartConfigs] cannot be read.  No module is
    returned in either case. *)
Theorem class_or_null_descriptor_is_a_type_error
  (ufun : nat -> list value -> heap -> result (value * heap))
  (this_ : option string) (arg : value) (s : state) :
  (forall id name statics fields,
      exists msg,
        smartModule ufun [] (VClass id name statics fields) this_ arg s
        = Throw (TypeError msg))
  /\ smartModule ufun [] VNull this_ arg s
     = Throw (TypeError "Cannot read properties of null (reading 'smartConfigs')")
  /\ smartModule ufun [] VUndefined this_ arg s
     = Throw (TypeError "Cannot read properties of undefined (reading 'smartConfigs')").
Proof.
  split; [|split; reflexivity].
  intros id name statics fields. unfold smartModule.
  rewrite bind_createNamedClass. cbn [mapM]. unfold bind at 1. unfold ret at 1.
  rewrite bind_new_array.
  change (isSmartModule (VClass id name statics fields)) with false. cbv iota.
  rewrite bind_reading. cbn [st_heap cells].
  destruct (isAsyncParams (cells (st_heap s) ++ [[]]) arg) as [[|]|[msg|msg]] eqn:E.
  - eexists. reflexivity.
  - eexists. reflexivity.
  - eexists. reflexivity.
  - exfalso. pose proof (no_js_isAsyncParams (cells (st_heap s) ++ [[]]) arg) as N.
    rewrite E in N. exact N.
Qed.

(** X16.  Without a root input the synthesizers cannot tell whether the
    input is asynchronous: for every valid schema source and every
    wrapped nested module, and in the closure over a factory before the
    factory is called, the missing input is a TypeError on reading
    [useFactory]; only a bare nested function is still called, with
    [undefined]. *)
Theorem missing_root_input
  (ufun : nat -> list value -> heap -> result (value * heap))
  (s : state) :
  let unreadable :=
    TypeError "Cannot read properties of undefined (reading 'useFactory')" in
  (forall c,
      isSmartConfig c = true \/ isExtendedSmartConfig (cells (st_heap s)) c = Ok true ->
      moduleFromSmartConfig c VUndefined s = Throw unreadable)
  /\ (forall c,
        isSmartImport c = false ->
        isExtendedSmartImport (cells (st_heap s)) c = Ok true ->
        moduleFromSmartImport ufun c VUndefined s = Throw unreadable)
  /\ (forall id this_,
        smartModule ufun [] (VFun id) this_ VUndefined s = Throw unreadable)
  /\ (forall id,
        moduleFromSmartImport ufun (VFun id) VUndefined s
        = call_user ufun NestedModuleSite id [VUndefined] s).
Proof.
  intro unreadable. split; [|split; [|split]].
  - intros c H. unfold moduleFromSmartConfig.
    destruct (isSmartConfig c) eqn:Ec.
    + reflexivity.
    + destruct H as [H|H]; [discriminate|].
      rewrite bind_reading, H. reflexivity.
  - intros c Hc He. unfold moduleFromSmartImport. rewrite Hc.
    rewrite bind_reading, He. reflexivity.
  - reflexivity.
  - reflexivity.
Qed.

(** ** A factory that returns the imports it was handed *)



(** ** The user code that the closure over a factory runs *)





(** The calls of such a run: the factory, its nested module, the factory. *)
Example scenario_factory_with_nested :
  st_trace (snd (Samples.completed
                   (smartModule nesting_functions [] (VFun 11) None Samples.input
                                (initial Samples.empty_heap))))
  = [mkEvent FactorySite (VFun 11) [VArr 0];
     mkEvent NestedModuleSite (VFun 12) [Samples.input];
     mkEvent FactorySite (VFun 11) [VArr 0]].
Proof. reflexivity. Qed.

(** ** Errors raised by user code *)

(** X19.  An error thrown by user code is thrown on, unchanged, and no
    module is returned: by the synthesizer for nested modules when the
    nested function throws, called bare or through a wrapper; by the
    closure over a static descriptor when its first nested module
    throws; and by the closure over a factory when the factory throws. *)
Theorem user_errors_propagate
  (ufun : nat -> list value -> heap -> result (value * heap))
  (id : nat) (arg : value) (s : state) (e : error) :
  let invoked :=
    mkHeap (S (next_id (st_heap s))) (cells (st_heap s) ++ [[]]) in
  (ufun id [arg] (st_heap s) = Throw e ->
   moduleFromSmartImport ufun (VFun id) arg s = Throw e)
  /\ (forall wrapper label prefix picked,
        lookup "smartImport" wrapper = Some (VFun id) ->
        or_undefined (lookup "label" wrapper) = optional label ->
        or_undefined (lookup "prefix" wrapper) = optional prefix ->
        isAsyncParams (cells (st_heap s)) arg = Ok false ->
        pickLabeledAndPrefixed (cells (st_heap s)) arg label prefix = Ok picked ->
        ufun id [picked] (st_heap s) = Throw e ->
        moduleFromSmartImport ufun (VObj wrapper) arg s = Throw e)
  /\ (forall definition loc rest this_,
        lookup "smartConfigs" definition = None ->
        lookup "smartImports" definition = Some (VArr loc) ->
        array_at (cells (st_heap s)) loc = VFun id :: rest ->
        ufun id [arg] invoked = Throw e ->
        smartModule ufun [] (VObj definition) this_ arg s = Throw e)
  /\ (forall this_ async,
        isAsyncParams (cells (st_heap s) ++ [[]]) arg = Ok async ->
        ufun id [VArr (List.length (cells (st_heap s)))] invoked = Throw e ->
        smartModule ufun [] (VFun id) this_ arg s = Throw e).
Proof.
  intro invoked.
  assert (Bare : forall a st,
             ufun id [a] (st_heap st) = Throw e ->
             moduleFromSmartImport ufun (VFun id) a st = Throw e).
  { intros a st H. unfold moduleFromSmartImport.
    change (isSmartImport (VFun id)) with true. cbv iota. cbn [call].
    unfold call_user. now rewrite H. }
  split; [|split; [|split]].
  - now apply Bare.
  - intros wrapper label prefix picked Hf Hl Hp Hasync Hpick H.
    destruct (wrapper_statics (cells (st_heap s)) wrapper label prefix Hl Hp) as [Sl Sp].
    unfold moduleFromSmartImport.
    change (isSmartImport (VObj wrapper)) with false. cbv iota.
    rewrite bind_reading, (wrapper_is_extended _ _ _ Hf).
    rewrite bind_reading, Hasync.
    rewrite bind_reading. cbn [get]. rewrite Hf. cbn [or_undefined].
    rewrite bind_reading, Sl. unfold rbind at 1. rewrite Sp. unfold rbind at 1.
    rewrite Hpick. cbn [call]. unfold call_user. now rewrite H.
  - intros definition loc rest this_ Hnone Hdef Hloc H.
    assert (Hlt : loc < List.length (cells (st_heap s))).
    { apply array_at_allocated. rewrite Hloc. discriminate. }
    unfold smartModule, smartConfigModulesOf, smartImportModulesOf.
    unfold bind, createNamedClass, new_array, reading, elements, ret, with_heap. simpl.
    rewrite Hnone, Hdef. simpl.
    rewrite (array_at_app _ _ _ Hlt), Hloc. cbn [mapM]. unfold bind.
    pose proof (Bare arg (mkState invoked (st_trace s)) H) as B.
    unfold invoked in B. now rewrite B.
  - intros this_ async Hasync H. unfold smartModule.
    rewrite bind_createNamedClass. cbn [mapM]. unfold bind at 1. unfold ret at 1.
    rewrite bind_new_array.
    change (isSmartModule (VFun id)) with false. cbv iota.
    rewrite bind_reading. cbn [st_heap cells]. rewrite Hasync.
    unfold invoked in H.
    destruct async.
    + unfold bind at 1. cbn [call]. unfold call_user.
      cbn [st_heap st_trace next_id cells]. now rewrite H.
    + cbn [mapM]. unfold bind at 1. unfold ret at 1.
      unfold bind at 1. cbn [call]. unfold call_user.
      cbn [st_heap st_trace next_id cells]. now rewrite H.
Qed.
